(** * The task state change event handler (agent/eventhandler/task_handler.go)

    A shallow embedding of the TaskHandler: its batch buffers, the registry of
    per-task event queues, the queue operations [sendChange] and
    [submitFirstEvent], the drain ticker's [taskStateChangesToSend] and the
    goroutines started by [sendChange].

    Shared mutable objects are kept in an explicit store: the registry
    [tasksToEvents] maps a task ARN to a pointer ([loc]) into [heap], and a
    goroutine keeps the pointer it was started with.  Every function of the
    source is a computation in the state monad [M] over [World]; mutexes are
    recorded in a ghost [trace] of synchronisation actions, which is checked
    against the locking discipline by [disciplined]. *)

From Stdlib Require Import ZArith Bool Lia.
From stdpp Require Import base option functions gmap strings list fin_maps.

Open Scope string_scope.
Open Scope list_scope.
Open Scope nat_scope.

(** ** Data model *)

(** apitaskstatus.TaskStatus is an integer enumeration; the handler only
    compares it with the constant TaskStopped. *)
Definition TaskStatus : Type := Z.

(** time.Time as an integer; 0 is the zero time. *)
Definition Time : Type := Z.

(** Modelled from the spec: the Task object of the task engine, declared
    outside src/.  The handler reads its known status, and SetTaskTimestamps
    reads its three timestamps. *)
Record Task := mkTask {
  Arn : string;
  KnownStatusUnsafe : TaskStatus;
  PullStartedAtUnsafe : Time;
  PullStoppedAtUnsafe : Time;
  ExecutionStoppedAtUnsafe : Time
}.

Definition GetKnownStatus (task : Task) : TaskStatus := KnownStatusUnsafe task.

(** api.ContainerStateChange: a task ARN, a container identifier and a
    status. *)
Record ContainerStateChange := mkContainerStateChange {
  csc_TaskArn : string;
  csc_ContainerName : string;
  csc_Status : Z
}.

(** api.ManagedAgentStateChange. *)
Record ManagedAgentStateChange := mkManagedAgentStateChange {
  masc_TaskArn : string;
  masc_Name : string;
  masc_Status : Z
}.

(** api.TaskStateChange. *)
Record TaskStateChange := mkTaskStateChange {
  TaskARN : string;
  Status : TaskStatus;
  Task_ : option Task;
  Containers : list ContainerStateChange;
  ManagedAgents : list ManagedAgentStateChange;
  Attachment : option string;
  PullStartedAt : option Time;
  PullStoppedAt : option Time;
  ExecutionStoppedAt : option Time
}.

Definition set_Containers (cs : list ContainerStateChange) (e : TaskStateChange) :=
  mkTaskStateChange (TaskARN e) (Status e) (Task_ e) cs (ManagedAgents e)
    (Attachment e) (PullStartedAt e) (PullStoppedAt e) (ExecutionStoppedAt e).

Definition set_ManagedAgents (ms : list ManagedAgentStateChange) (e : TaskStateChange) :=
  mkTaskStateChange (TaskARN e) (Status e) (Task_ e) (Containers e) ms
    (Attachment e) (PullStartedAt e) (PullStoppedAt e) (ExecutionStoppedAt e).

(** Modelled from the spec: SetTaskTimestamps is declared outside src/; it
    populates the timestamps of a task change from its task, leaving a
    timestamp alone when the task has none (the zero time). *)
Definition effective (t : Time) (old : option Time) : option Time :=
  if (t =? 0)%Z then old else Some t.

Definition SetTaskTimestamps (e : TaskStateChange) : TaskStateChange :=
  match Task_ e with
  | None => e
  | Some task =>
      mkTaskStateChange (TaskARN e) (Status e) (Task_ e) (Containers e)
        (ManagedAgents e) (Attachment e)
        (effective (PullStartedAtUnsafe task) (PullStartedAt e))
        (effective (PullStoppedAtUnsafe task) (PullStoppedAt e))
        (effective (ExecutionStoppedAtUnsafe task) (ExecutionStoppedAt e))
  end.

(** Modelled from the spec: statechange.Event is declared outside src/.  An
    event is an interface value: a discriminator returned by GetEventType and
    a dynamic value, which the handler recovers with a type assertion. *)
Inductive EventType :=
  | ContainerEvent
  | TaskEvent
  | ManagedAgentEvent
  | OtherEvent (code : Z).

Inductive Dynamic :=
  | DynTask (e : TaskStateChange)
  | DynContainer (e : ContainerStateChange)
  | DynManagedAgent (e : ManagedAgentStateChange)
  | DynOther (type_name : string).

Record Event := mkEvent {
  GetEventType : EventType;
  dynamicValue : Dynamic
}.

(** change.(api.TaskStateChange) and its two siblings. *)
Definition asTaskStateChange (change : Event) : option TaskStateChange :=
  match dynamicValue change with DynTask e => Some e | _ => None end.

Definition asContainerStateChange (change : Event) : option ContainerStateChange :=
  match dynamicValue change with DynContainer e => Some e | _ => None end.

Definition asManagedAgentStateChange (change : Event) : option ManagedAgentStateChange :=
  match dynamicValue change with DynManagedAgent e => Some e | _ => None end.

(** The interface value of a task state change. *)
Definition taskEventOf (e : TaskStateChange) : Event := mkEvent TaskEvent (DynTask e).

(** Errors: an AWS error carries a code, errors.New only a message. *)
Inductive error :=
  | AWSError (code : string) (message : string)
  | PlainError (message : string).

Definition errors_New (message : string) : error := PlainError message.

(** Modelled from the spec: the error code of the typed invalid parameter
    error and the helper comparing an error's code, both outside src/. *)
Definition ErrCodeInvalidParameterException : string := "InvalidParameterException".

Definition IsAWSErrorCodeEqual (err : error) (code : string) : bool :=
  match err with
  | AWSError c _ => String.eqb c code
  | PlainError _ => false
  end.

(** Modelled from the spec: the sendable event, declared outside src/, is a
    tagged union over a task change, a container change and a task attachment
    change; taskArn is its sharding key. *)
Inductive sendableEvent :=
  | TaskChange (change : TaskStateChange)
  | ContainerChange (change : ContainerStateChange)
  | TaskAttachmentChange (change : TaskStateChange).

Definition newSendableTaskEvent (event : TaskStateChange) : sendableEvent :=
  TaskChange event.

Definition taskArn (event : sendableEvent) : string :=
  match event with
  | TaskChange c => TaskARN c
  | ContainerChange c => csc_TaskArn c
  | TaskAttachmentChange c => TaskARN c
  end.

(** ** The store *)

Abbreviation loc := nat.
Definition ECSClient : Type := nat.

(** taskSendableEvents: [events] is the container/list queue, new events at
    the back, old events drained from the front. *)
Record taskSendableEvents := mkTaskSendableEvents {
  events : list sendableEvent;
  sending : bool;
  createdAt : Time;
  taskARN : string
}.

Definition set_events (l : list sendableEvent) (q : taskSendableEvents) :=
  mkTaskSendableEvents l (sending q) (createdAt q) (taskARN q).

Definition set_sending (b : bool) (q : taskSendableEvents) :=
  mkTaskSendableEvents (events q) b (createdAt q) (taskARN q).

(** TaskHandler: the semaphore is the number of free permits; the values of
    [tasksToEvents] are pointers. *)
Record TaskHandler := mkTaskHandler {
  submitSemaphore : nat;
  tasksToEvents : gmap string loc;
  tasksToContainerStates : gmap string (list ContainerStateChange);
  tasksToManagedAgentStates : gmap string (list ManagedAgentStateChange);
  client : ECSClient
}.

Definition set_submitSemaphore (n : nat) (h : TaskHandler) :=
  mkTaskHandler n (tasksToEvents h) (tasksToContainerStates h)
    (tasksToManagedAgentStates h) (client h).

Definition set_tasksToEvents (m : gmap string loc) (h : TaskHandler) :=
  mkTaskHandler (submitSemaphore h) m (tasksToContainerStates h)
    (tasksToManagedAgentStates h) (client h).

Definition set_tasksToContainerStates
    (m : gmap string (list ContainerStateChange)) (h : TaskHandler) :=
  mkTaskHandler (submitSemaphore h) (tasksToEvents h) m
    (tasksToManagedAgentStates h) (client h).

Definition set_tasksToManagedAgentStates
    (m : gmap string (list ManagedAgentStateChange)) (h : TaskHandler) :=
  mkTaskHandler (submitSemaphore h) (tasksToEvents h)
    (tasksToContainerStates h) m (client h).

(** The control points of a goroutine running submitTaskEvents. *)
Inductive PC :=
  | AtWait                (* about to call submitSemaphore.Wait() *)
  | AtSubmitFirstEvent    (* holds a permit, about to call submitFirstEvent *)
  | AtRemoveTaskEvents    (* loop left, the deferred removeTaskEvents pending *)
  | Exited.

Record Goroutine := mkGoroutine {
  g_taskEvents : loc;
  g_client : ECSClient;
  g_taskARN : string;
  g_pc : PC
}.

Definition set_pc (pc : PC) (g : Goroutine) :=
  mkGoroutine (g_taskEvents g) (g_client g) (g_taskARN g) pc.

(** What leaves the handler: calls of the remote API with their result, and
    sent markers written to the data client. *)
Inductive Api := sendContainerStatusToECS | sendTaskStatusToECS.
Inductive Marker := setContainerChangeSent | setTaskChangeSent | setTaskAttachmentSent.

Inductive Effect :=
  | RemoteCall (api : Api) (eventType : string) (event : sendableEvent)
      (result : option error)
  | SentMarker (marker : Marker) (event : sendableEvent).

(** Ghost trace of synchronisation actions and accesses to shared objects. *)
Inductive Mutex := HandlerLock | QueueLock (l : loc).

Inductive Resource :=
  | RTasksToEvents
  | RContainerStates
  | RManagedAgentStates
  | RQueue (l : loc).

Inductive Action :=
  | ALock (m : Mutex)
  | AUnlock (m : Mutex)
  | ARLock (m : Mutex)
  | ARUnlock (m : Mutex)
  | ARead (r : Resource)
  | AWrite (r : Resource)
  | AGo (l : loc) (arn : string).

Record World := mkWorld {
  handler : TaskHandler;
  heap : loc → taskSendableEvents;
  next : loc;
  goroutines : list Goroutine;
  tickerPending : list TaskStateChange;
  effects : list Effect;
  clock : Time;
  trace : list Action
}.

Definition set_handler (x : TaskHandler) (w : World) : World :=
  mkWorld x (heap w) (next w) (goroutines w) (tickerPending w) (effects w) (clock w) (trace w).
Definition set_heap (x : loc → taskSendableEvents) (w : World) : World :=
  mkWorld (handler w) x (next w) (goroutines w) (tickerPending w) (effects w) (clock w) (trace w).
Definition set_next (x : loc) (w : World) : World :=
  mkWorld (handler w) (heap w) x (goroutines w) (tickerPending w) (effects w) (clock w) (trace w).
Definition set_goroutines (x : list Goroutine) (w : World) : World :=
  mkWorld (handler w) (heap w) (next w) x (tickerPending w) (effects w) (clock w) (trace w).
Definition set_tickerPending (x : list TaskStateChange) (w : World) : World :=
  mkWorld (handler w) (heap w) (next w) (goroutines w) x (effects w) (clock w) (trace w).
Definition set_effects (x : list Effect) (w : World) : World :=
  mkWorld (handler w) (heap w) (next w) (goroutines w) (tickerPending w) x (clock w) (trace w).
Definition set_clock (x : Time) (w : World) : World :=
  mkWorld (handler w) (heap w) (next w) (goroutines w) (tickerPending w) (effects w) x (trace w).
Definition set_trace (x : list Action) (w : World) : World :=
  mkWorld (handler w) (heap w) (next w) (goroutines w) (tickerPending w) (effects w) (clock w) x.

(** ** The state monad *)

Definition M (A : Type) : Type := World → A * World.

#[global] Instance M_ret : MRet M := λ A a w, (a, w).
#[global] Instance M_bind : MBind M :=
  λ A B f m w, let '(a, w') := m w in f a w'.

Definition gets {A} (f : World → A) : M A := λ w, (f w, w).
Definition modify (f : World → World) : M unit := λ w, (tt, f w).
Definition emit (a : Action) : M unit := modify (λ w, set_trace (trace w ++ [a]) w).

(** sync.Mutex and sync.RWMutex. *)
Definition Lock (m : Mutex) : M unit := emit (ALock m).
Definition Unlock (m : Mutex) : M unit := emit (AUnlock m).
Definition RLock (m : Mutex) : M unit := emit (ARLock m).
Definition RUnlock (m : Mutex) : M unit := emit (ARUnlock m).

(** Go maps: reading a missing key of a slice-valued map gives the nil slice. *)
Definition readContainerStates (arn : string) : M (list ContainerStateChange) :=
  emit (ARead RContainerStates);;
  gets (λ w, default [] (tasksToContainerStates (handler w) !! arn)).

Definition writeContainerStates (arn : string) (v : list ContainerStateChange) : M unit :=
  emit (AWrite RContainerStates);;
  modify (λ w, set_handler (set_tasksToContainerStates
    (<[arn := v]> (tasksToContainerStates (handler w))) (handler w)) w).

Definition deleteContainerStates (arn : string) : M unit :=
  emit (AWrite RContainerStates);;
  modify (λ w, set_handler (set_tasksToContainerStates
    (delete arn (tasksToContainerStates (handler w))) (handler w)) w).

Definition readManagedAgentStates (arn : string) : M (list ManagedAgentStateChange) :=
  emit (ARead RManagedAgentStates);;
  gets (λ w, default [] (tasksToManagedAgentStates (handler w) !! arn)).

Definition writeManagedAgentStates (arn : string) (v : list ManagedAgentStateChange) : M unit :=
  emit (AWrite RManagedAgentStates);;
  modify (λ w, set_handler (set_tasksToManagedAgentStates
    (<[arn := v]> (tasksToManagedAgentStates (handler w))) (handler w)) w).

Definition deleteManagedAgentStates (arn : string) : M unit :=
  emit (AWrite RManagedAgentStates);;
  modify (λ w, set_handler (set_tasksToManagedAgentStates
    (delete arn (tasksToManagedAgentStates (handler w))) (handler w)) w).

Definition lookupTasksToEvents (arn : string) : M (option loc) :=
  emit (ARead RTasksToEvents);;
  gets (λ w, tasksToEvents (handler w) !! arn).

Definition writeTasksToEvents (arn : string) (l : loc) : M unit :=
  emit (AWrite RTasksToEvents);;
  modify (λ w, set_handler (set_tasksToEvents
    (<[arn := l]> (tasksToEvents (handler w))) (handler w)) w).

Definition deleteTasksToEvents (arn : string) : M unit :=
  emit (AWrite RTasksToEvents);;
  modify (λ w, set_handler (set_tasksToEvents
    (delete arn (tasksToEvents (handler w))) (handler w)) w).

(** Objects behind pointers: the store is a total map from pointers to
    objects, and [next] is the first pointer that [new] has not handed out. *)
Definition deref (w : World) (l : loc) : taskSendableEvents := heap w l.

(** The zero value, which fills the store where nothing was allocated. *)
Definition nilQueue : taskSendableEvents := mkTaskSendableEvents [] false 0%Z "".

Definition new (q : taskSendableEvents) : M loc :=
  λ w, (next w, set_next (S (next w)) (set_heap (<[next w := q]> (heap w)) w)).

Definition readQueue (l : loc) : M taskSendableEvents :=
  emit (ARead (RQueue l));;
  gets (λ w, deref w l).

Definition updateQueue (l : loc) (f : taskSendableEvents → taskSendableEvents) : M unit :=
  emit (AWrite (RQueue l));;
  modify (λ w, set_heap (<[l := f (deref w l)]> (heap w)) w).

(** container/list: PushBack, and Remove applied to the element that Front
    returned under the same lock, which is the head of the list. *)
Definition PushBack (l : loc) (v : sendableEvent) : M unit :=
  updateQueue l (λ q, set_events (events q ++ [v]) q).

Definition Remove (l : loc) : M unit :=
  updateQueue l (λ q, set_events (tail (events q)) q).

Definition setSending (l : loc) (b : bool) : M unit :=
  updateQueue l (set_sending b).

Definition timeNow : M Time := gets clock.

(** The go statement of sendChange: a new goroutine at the start of
    submitTaskEvents. *)
Definition go_submitTaskEvents (taskEvents : loc) (cl : ECSClient) (arn : string) : M unit :=
  emit (AGo taskEvents arn);;
  modify (λ w, set_goroutines (goroutines w ++ [mkGoroutine taskEvents cl arn AtWait]) w).

Definition record (e : Effect) : M unit :=
  modify (λ w, set_effects (effects w ++ [e]) w).

(** ** The handler's operations *)

(** batchContainerEventUnsafe collects container state change events for a
    given task arn. *)
Definition batchContainerEventUnsafe (event : ContainerStateChange) : M unit :=
  old ← readContainerStates (csc_TaskArn event);
  writeContainerStates (csc_TaskArn event) (old ++ [event]).

(** batchManagedAgentEventUnsafe collects managed agent state change events
    for a given task arn. *)
Definition batchManagedAgentEventUnsafe (event : ManagedAgentStateChange) : M unit :=
  old ← readManagedAgentStates (masc_TaskArn event);
  writeManagedAgentStates (masc_TaskArn event) (old ++ [event]).

(** getTaskEventsUnsafe gets the event list for the task arn of the sendable
    event, creating a new entry when the arn is not tracked. *)
Definition getTaskEventsUnsafe (event : sendableEvent) : M loc :=
  let taskARN := taskArn event in
  found ← lookupTasksToEvents taskARN;
  match found with
  | Some taskEvents => mret taskEvents
  | None =>
      now ← timeNow;
      taskEvents ← new (mkTaskSendableEvents [] false now taskARN);
      writeTasksToEvents taskARN taskEvents;;
      mret taskEvents
  end.

(** sendChange adds the change to the sendable events queue and starts
    submitTaskEvents when no goroutine is sending for this event list. *)
Definition sendChange (taskEvents : loc) (change : sendableEvent) (cl : ECSClient) : M unit :=
  Lock (QueueLock taskEvents);;
  PushBack taskEvents change;;
  q ← readQueue taskEvents;
  (if negb (sending q) then
     setSending taskEvents true;;
     go_submitTaskEvents taskEvents cl (taskArn change)
   else mret tt);;
  Unlock (QueueLock taskEvents).

(** flushBatchUnsafe attaches the task arn's container and managed agent
    events to the task state change, removes them from the maps, and hands the
    event to the task's event list. *)
Definition flushBatchUnsafe (taskStateChange : TaskStateChange) (cl : ECSClient) : M unit :=
  cs ← readContainerStates (TaskARN taskStateChange);
  let taskStateChange :=
    set_Containers (Containers taskStateChange ++ cs) taskStateChange in
  deleteContainerStates (TaskARN taskStateChange);;
  ms ← readManagedAgentStates (TaskARN taskStateChange);
  let taskStateChange :=
    set_ManagedAgents (ManagedAgents taskStateChange ++ ms) taskStateChange in
  deleteManagedAgentStates (TaskARN taskStateChange);;
  let event := newSendableTaskEvent taskStateChange in
  taskEvents ← getTaskEventsUnsafe event;
  sendChange taskEvents event cl.

(** AddStateChangeEvent queues up the state change event to be sent to ECS.
    The deferred Unlock runs after the switch, on every return. *)
Definition AddStateChangeEvent (change : Event) (cl : ECSClient) : M (option error) :=
  Lock HandlerLock;;
  result ←
    match GetEventType change with
    | TaskEvent =>
        match asTaskStateChange change with
        | None =>
            mret (Some (errors_New
              "eventhandler: unable to get task event from state change event"))
        | Some event => flushBatchUnsafe event cl;; mret None
        end
    | ContainerEvent =>
        match asContainerStateChange change with
        | None =>
            mret (Some (errors_New
              "eventhandler: unable to get container event from state change event"))
        | Some event => batchContainerEventUnsafe event;; mret None
        end
    | ManagedAgentEvent =>
        match asManagedAgentStateChange change with
        | None =>
            mret (Some (errors_New
              "eventhandler: unable to get managed agent event from state change event"))
        | Some event => batchManagedAgentEventUnsafe event;; mret None
        end
    | OtherEvent _ =>
        mret (Some (errors_New
          "eventhandler: unable to determine event type from state change event"))
    end;
  Unlock HandlerLock;;
  mret result.

Definition removeTaskEvents (taskARN : string) : M unit :=
  Lock HandlerLock;;
  deleteTasksToEvents taskARN;;
  Unlock HandlerLock.

(** ** Submitting the front event *)

(** What submitFirstEvent asks of its collaborators when it runs: the three
    predicates of the sendable event, which depend on the sent flags and the
    status of the underlying entity at that moment, and the answer of the
    remote API. *)
Record Env := mkEnv {
  containerShouldBeSent : sendableEvent → bool;
  taskShouldBeSent : sendableEvent → bool;
  taskAttachmentShouldBeSent : sendableEvent → bool;
  submitStateChange : Api → sendableEvent → option error
}.

(** Modelled from the spec: send is declared outside src/.  It performs the
    remote call; on success it writes the sent marker and removes the front
    element; on failure it leaves the element in place and reports the
    error. *)
Definition send (sendStatusToECS : Api) (setChangeSent : Marker) (eventType : string)
    (env : Env) (event : sendableEvent) (taskEvents : loc) : M (option error) :=
  let result := submitStateChange env sendStatusToECS event in
  record (RemoteCall sendStatusToECS eventType event result);;
  match result with
  | Some err => mret (Some err)
  | None =>
      record (SentMarker setChangeSent event);;
      Remove taskEvents;;
      mret None
  end.

(** handleInvalidParamException removes the event from the event queue when
    its parameters are invalid. *)
Definition handleInvalidParamException (err : error) (taskEvents : loc) : M unit :=
  if IsAWSErrorCodeEqual err ErrCodeInvalidParameterException
  then Remove taskEvents
  else mret tt.

(** The branch on the predicates; [Some r] is an early return of r. *)
Definition submitEvent (env : Env) (event : sendableEvent) (taskEvents : loc)
    : M (option (bool * option error)) :=
  if containerShouldBeSent env event then
    err ← send sendContainerStatusToECS setContainerChangeSent "container"
            env event taskEvents;
    match err with
    | Some e => mret (Some (false, Some e))
    | None => mret None
    end
  else if taskShouldBeSent env event then
    err ← send sendTaskStatusToECS setTaskChangeSent "task" env event taskEvents;
    match err with
    | Some e =>
        handleInvalidParamException e taskEvents;;
        mret (Some (false, Some e))
    | None => mret None
    end
  else if taskAttachmentShouldBeSent env event then
    err ← send sendTaskStatusToECS setTaskAttachmentSent "task attachment"
            env event taskEvents;
    match err with
    | Some e =>
        handleInvalidParamException e taskEvents;;
        mret (Some (false, Some e))
    | None => mret None
    end
  else
    Remove taskEvents;;
    mret None.

(** submitFirstEvent submits the first event of the list.  Len() == 0 is the
    empty list, Front() its head. *)
Definition submitFirstEvent (env : Env) (taskEvents : loc) : M (bool * option error) :=
  Lock (QueueLock taskEvents);;
  q ← readQueue taskEvents;
  result ←
    match events q with
    | [] =>
        setSending taskEvents false;;
        mret (true, None)
    | event :: _ =>
        early ← submitEvent env event taskEvents;
        match early with
        | Some r => mret r
        | None =>
            q' ← readQueue taskEvents;
            match events q' with
            | [] =>
                setSending taskEvents false;;
                mret (true, None)
            | _ :: _ => mret (false, None)
            end
        end
    end;
  Unlock (QueueLock taskEvents);;
  mret result.

(** ** The drain ticker *)

(** dockerstate.TaskEngineState, through its TaskByArn. *)
Abbreviation TaskEngineState := (gmap string Task).

Definition TaskByArn (state : TaskEngineState) (taskARN : string) : option Task :=
  state !! taskARN.

Section DrainTicker.

(** apitaskstatus.TaskStopped is declared outside src/; the handler depends
    on it only through the comparison knownStatus >= TaskStopped. *)
Variable TaskStopped : TaskStatus.

(** The synthetic event built in both loops of taskStateChangesToSend. *)
Definition syntheticEvent (taskARN : string) (task : Task) : TaskStateChange :=
  SetTaskTimestamps
    (mkTaskStateChange taskARN (GetKnownStatus task) (Some task) [] [] None
       None None None).

(** Body of the loop over the keys of tasksToContainerStates. *)
Definition containerPass (state : TaskEngineState)
    (events : gmap string TaskStateChange) (taskARN : string)
    : gmap string TaskStateChange :=
  match TaskByArn state taskARN with
  | Some task =>
      let knownStatus := GetKnownStatus task in
      if (TaskStopped <=? knownStatus)%Z then events
      else <[taskARN := syntheticEvent taskARN task]> events
  | None => events
  end.

(** Body of the loop over the keys of tasksToManagedAgentStates. *)
Definition managedAgentPass (state : TaskEngineState)
    (events : gmap string TaskStateChange) (taskARN : string)
    : gmap string TaskStateChange :=
  match events !! taskARN with
  | Some _ => events
  | None =>
      match TaskByArn state taskARN with
      | Some task =>
          let knownStatus := GetKnownStatus task in
          if (TaskStopped <=? knownStatus)%Z then events
          else <[taskARN := syntheticEvent taskARN task]> events
      | None => events
      end
  end.

(** The two range loops, over the keys in the order the maps are walked. *)
Definition synthesize (state : TaskEngineState) (containerKeys agentKeys : list string)
    : gmap string TaskStateChange :=
  foldl (managedAgentPass state) (foldl (containerPass state) ∅ containerKeys) agentKeys.

Definition keysOf {V} (m : gmap string V) : list string := (map_to_list m).*1.

(** taskStateChangesToSend gets the task state changes for the container and
    managed agent events that have been batched and not sent. *)
Definition taskStateChangesToSend (state : TaskEngineState) : M (list TaskStateChange) :=
  RLock HandlerLock;;
  emit (ARead RContainerStates);;
  cs ← gets (λ w, tasksToContainerStates (handler w));
  emit (ARead RManagedAgentStates);;
  ms ← gets (λ w, tasksToManagedAgentStates (handler w));
  let events := synthesize state (keysOf cs) (keysOf ms) in
  let taskEvents := (map_to_list events).*2 in
  RUnlock HandlerLock;;
  mret taskEvents.

(** ** Goroutines *)

(** concurrentEventCalls is the maximum number of tasks that may be handled
    at once by the TaskHandler. *)
Definition concurrentEventCalls : nat := 10.

(** NewTaskHandler: empty maps and a semaphore of concurrentEventCalls
    permits; the ticker goroutine is the source of the [Tick] steps. *)
Definition NewTaskHandler (cl : ECSClient) (now : Time) : World :=
  mkWorld (mkTaskHandler concurrentEventCalls ∅ ∅ ∅ cl) (λ _, nilQueue) 0 [] [] [] now [].

(** Modelled from the spec: utils.Semaphore is declared outside src/.  Wait
    blocks until a permit is free and takes it; Post returns one. *)
Definition Wait : World → option World :=
  λ w, match submitSemaphore (handler w) with
       | O => None
       | S n => Some (set_handler (set_submitSemaphore n (handler w)) w)
       end.

Definition Post : M unit :=
  modify (λ w, set_handler (set_submitSemaphore (S (submitSemaphore (handler w))) (handler w)) w).

Definition set_goroutine (i : nat) (g : Goroutine) : M unit :=
  modify (λ w, set_goroutines (<[i := g]> (goroutines w)) w).

(** One step of the system.  A goroutine running submitTaskEvents advances
    from one control point to the next; its steps are the critical sections of
    the source.  [None] means that the step cannot be taken now. *)
Inductive Label :=
  | Submit (change : Event) (cl : ECSClient)    (* a caller of AddStateChangeEvent *)
  | Tick (state : TaskEngineState)             (* the ticker fires *)
  | TickSubmit                                  (* the ticker's loop body *)
  | Elapse (d : Time)
  | Acquire (i : nat)                           (* goroutine i: Wait() *)
  | Drain (i : nat) (env : Env)                 (* goroutine i: submitFirstEvent, Post() *)
  | Cleanup (i : nat).                          (* goroutine i: removeTaskEvents *)

(** The body of the retry function after Wait, and what the two loops of
    submitTaskEvents do with its result.  Modelled from the spec:
    retry.RetryWithBackoff is declared outside src/; it invokes the body
    again after a failure and returns when the body succeeds, and then
    submitTaskEvents leaves its loop when done is set. *)
Definition retryBody (env : Env) (i : nat) (g : Goroutine) : M unit :=
  r ← submitFirstEvent env (g_taskEvents g);
  Post;;
  match r : bool * option error with
  | (_, Some _) => set_goroutine i (set_pc AtWait g)
  | (done, None) =>
      if done then set_goroutine i (set_pc AtRemoveTaskEvents g)
      else set_goroutine i (set_pc AtWait g)
  end.

(** The deferred removeTaskEvents, which ends the goroutine. *)
Definition deferredBody (i : nat) (g : Goroutine) : M unit :=
  removeTaskEvents (g_taskARN g);;
  set_goroutine i (set_pc Exited g).

Definition step (w : World) (lbl : Label) : option World :=
  match lbl with
  | Submit change cl => Some (AddStateChangeEvent change cl w).2
  | Tick state =>
      match tickerPending w with
      | [] =>
          let '(taskEvents, w') := taskStateChangesToSend state w in
          Some (set_tickerPending taskEvents w')
      | _ :: _ => None
      end
  | TickSubmit =>
      match tickerPending w with
      | [] => None
      | taskEvent :: rest =>
          Some (AddStateChangeEvent (taskEventOf taskEvent) (client (handler w))
                  (set_tickerPending rest w)).2
      end
  | Elapse d => if (0 <=? d)%Z then Some (set_clock (clock w + d)%Z w) else None
  | Acquire i =>
      match goroutines w !! i with
      | Some g =>
          match g_pc g with
          | AtWait =>
              match Wait w with
              | Some w' => Some (set_goroutine i (set_pc AtSubmitFirstEvent g) w').2
              | None => None
              end
          | _ => None
          end
      | None => None
      end
  | Drain i env =>
      match goroutines w !! i with
      | Some g =>
          match g_pc g with
          | AtSubmitFirstEvent => Some (retryBody env i g w).2
          | _ => None
          end
      | None => None
      end
  | Cleanup i =>
      match goroutines w !! i with
      | Some g =>
          match g_pc g with
          | AtRemoveTaskEvents => Some (deferredBody i g w).2
          | _ => None
          end
      | None => None
      end
  end.

Fixpoint run (w : World) (lbls : list Label) : option World :=
  match lbls with
  | [] => Some w
  | lbl :: rest =>
      match step w lbl with
      | Some w' => run w' rest
      | None => None
      end
  end.

End DrainTicker.

(** ** The locking discipline of a goroutine's trace *)

Inductive Mode := Exclusive | Shared.

Definition mutex_eqb (m1 m2 : Mutex) : bool :=
  match m1, m2 with
  | HandlerLock, HandlerLock => true
  | QueueLock l1, QueueLock l2 => Nat.eqb l1 l2
  | _, _ => false
  end.

Definition mode_eqb (a b : Mode) : bool :=
  match a, b with
  | Exclusive, Exclusive | Shared, Shared => true
  | _, _ => false
  end.

(** The mutex that guards a shared object: the handler's lock for its three
    maps, the event list's own lock for the list and its sending flag. *)
Definition guard (r : Resource) : Mutex :=
  match r with
  | RQueue l => QueueLock l
  | _ => HandlerLock
  end.

Definition holds (held : list (Mutex * Mode)) (m : Mutex) : bool :=
  existsb (λ h, mutex_eqb h.1 m) held.

Definition holdsIn (held : list (Mutex * Mode)) (m : Mutex) (mode : Mode) : bool :=
  existsb (λ h, mutex_eqb h.1 m && mode_eqb h.2 mode) held.

Definition release (held : list (Mutex * Mode)) (m : Mutex) : list (Mutex * Mode) :=
  filter (λ h, negb (mutex_eqb h.1 m)) held.

(** [disciplined held tr]: starting with the mutexes of [held], the goroutine
    never locks a mutex it holds, only unlocks what it holds in that mode,
    writes a shared object only while it holds the guard exclusively, reads it
    only while it holds the guard, and holds nothing at the end. *)
Fixpoint disciplined (held : list (Mutex * Mode)) (tr : list Action) : bool :=
  match tr with
  | [] => match held with [] => true | _ :: _ => false end
  | ALock m :: tr => negb (holds held m) && disciplined ((m, Exclusive) :: held) tr
  | AUnlock m :: tr => holdsIn held m Exclusive && disciplined (release held m) tr
  | ARLock m :: tr => negb (holds held m) && disciplined ((m, Shared) :: held) tr
  | ARUnlock m :: tr => holdsIn held m Shared && disciplined (release held m) tr
  | ARead r :: tr => holds held (guard r) && disciplined held tr
  | AWrite r :: tr => holdsIn held (guard r) Exclusive && disciplined held tr
  | AGo _ _ :: tr => disciplined held tr
  end.

(** ** Observations used in the statements *)

(** What a send leaves behind: the remote call with its answer and, when the
    call succeeded, the sent marker. *)
Definition sendEffects (api : Api) (marker : Marker) (eventType : string)
    (env : Env) (event : sendableEvent) : list Effect :=
  match submitStateChange env api event with
  | Some err => [RemoteCall api eventType event (Some err)]
  | None => [RemoteCall api eventType event None; SentMarker marker event]
  end.

(** The events whose remote submission succeeded, in the order of the
    calls. *)
Definition submitted (es : list Effect) : list sendableEvent :=
  omap (λ e, match e with
             | RemoteCall _ _ event None => Some event
             | _ => None
             end) es.

(** Goroutines between Wait and Post: they hold a permit, and only they call
    the remote API. *)
Definition holdsPermit (g : Goroutine) : bool :=
  match g_pc g with AtSubmitFirstEvent => true | _ => false end.

Definition countIf (p : Goroutine → bool) (gs : list Goroutine) : nat :=
  length (filter (λ g, p g = true) gs).

Definition inflight (w : World) : nat := countIf holdsPermit (goroutines w).

(** Goroutines that have not left the loop of submitTaskEvents, and those
    among them that drain the event list behind a given pointer. *)
Definition active (g : Goroutine) : bool :=
  match g_pc g with AtWait | AtSubmitFirstEvent => true | _ => false end.

Definition worksOn (l : loc) (g : Goroutine) : bool :=
  active g && Nat.eqb (g_taskEvents g) l.

Definition workers (l : loc) (w : World) : nat := countIf (worksOn l) (goroutines w).

(** Per event list: a goroutine is in the loop exactly when the sending flag
    is set, and then it is the only one; pointers that were not handed out
    are neither flagged nor registered. *)
Definition oneWorkerPerList (w : World) : Prop :=
  (∀ l, workers l w = if sending (heap w l) then 1 else 0) ∧
  (∀ l, next w ≤ l → sending (heap w l) = false) ∧
  (∀ arn l, tasksToEvents (handler w) !! arn = Some l → l < next w).

(** Every entry of the two batch buffers holds at least one change. *)
Definition nonemptyEntries {V} (m : gmap string (list V)) : bool :=
  forallb (λ kv, match kv.2 with [] => false | _ :: _ => true end) (map_to_list m).

Definition buffers_wf (h : TaskHandler) : Prop :=
  nonemptyEntries (tasksToContainerStates h) = true ∧
  nonemptyEntries (tasksToManagedAgentStates h) = true.

(** The task changes handed to AddStateChangeEvent by the callers, in the
    order of the calls. *)
Definition handedIn (lbls : list Label) : list TaskStateChange :=
  omap (λ lbl, match lbl with
               | Submit change _ => asTaskStateChange change
               | _ => None
               end) lbls.

Definition statusOf (event : sendableEvent) : TaskStatus :=
  match event with
  | TaskChange c | TaskAttachmentChange c => Status c
  | ContainerChange c => csc_Status c
  end.

(** The event that a pass of taskStateChangesToSend produces for an ARN, if
    the ARN is eligible: its task is known and has not reached TaskStopped. *)
Definition eligible (TaskStopped : TaskStatus) (state : TaskEngineState)
    (taskARN : string) : option TaskStateChange :=
  match TaskByArn state taskARN with
  | Some task =>
      if (TaskStopped <=? GetKnownStatus task)%Z then None
      else Some (syntheticEvent taskARN task)
  | None => None
  end.

(** The semaphore's free permits and the goroutines between Wait and Post
    add up to the capacity. *)
Definition permitsBalanced (w : World) : Prop :=
  submitSemaphore (handler w) + inflight w = concurrentEventCalls.

(** ** Concrete inputs *)

Definition sampleTaskChange (arn : string) (status : TaskStatus) : TaskStateChange :=
  mkTaskStateChange arn status None [] [] None None None None.

Definition invalidParameter : error :=
  AWSError ErrCodeInvalidParameterException "invalid parameter".

(** The task predicate holds and the remote API accepts. *)
Definition envTaskAccepted : Env :=
  mkEnv (λ _, false) (λ _, true) (λ _, false) (λ _ _, None).

(** The task predicate holds and the remote API answers invalid parameter. *)
Definition envTaskInvalid : Env :=
  mkEnv (λ _, false) (λ _, true) (λ _, false) (λ _ _, Some invalidParameter).

(** The container predicate holds (also for a task change) and the remote
    API answers invalid parameter. *)
Definition envContainerInvalid : Env :=
  mkEnv (λ _, true) (λ _, true) (λ _, false) (λ _ _, Some invalidParameter).

(** All three predicates are false. *)
Definition envRedundant : Env :=
  mkEnv (λ _, false) (λ _, false) (λ _, false) (λ _ _, None).

(** A handler in which one task change for task T was submitted. *)
Definition worldOneEvent : World :=
  (AddStateChangeEvent (taskEventOf (sampleTaskChange "T" 4%Z)) 0 (NewTaskHandler 0 0%Z)).2.

Definition containerEventOf (e : ContainerStateChange) : Event :=
  mkEvent ContainerEvent (DynContainer e).

Definition managedAgentEventOf (e : ManagedAgentStateChange) : Event :=
  mkEvent ManagedAgentEvent (DynManagedAgent e).

(** Three task changes for one task T.  The second one, with a change of
    container c1 batched before it, is handed in after the first goroutine
    saw its list empty and before its deferred removeTaskEvents; the third
    one, with a change of container c2, after that removal. *)
Definition raceSetup : list Label :=
  [ Submit (taskEventOf (sampleTaskChange "T" 1%Z)) 0;
    Acquire 0; Drain 0 envTaskAccepted;
    Submit (containerEventOf (mkContainerStateChange "T" "c1" 4%Z)) 0;
    Submit (taskEventOf (sampleTaskChange "T" 2%Z)) 0;
    Cleanup 0;
    Submit (containerEventOf (mkContainerStateChange "T" "c2" 4%Z)) 0;
    Submit (taskEventOf (sampleTaskChange "T" 3%Z)) 0 ].

(** The goroutine of the third change runs before the goroutine of the
    second. *)
Definition raceSchedule : list Label :=
  raceSetup ++ [ Acquire 2; Drain 2 envTaskAccepted; Acquire 1; Drain 1 envTaskAccepted ].

(** Eleven tasks, and ten goroutines past Wait. *)
Definition saturate : list Label :=
  map (λ n, Submit (taskEventOf (sampleTaskChange (String (Ascii.ascii_of_nat (65 + n)) "") 4%Z)) 0)
      (seq 0 11)
  ++ map Acquire (seq 0 10).

Definition saturatedWorld : World :=
  default (NewTaskHandler 0 0%Z) (run 5%Z (NewTaskHandler 0 0%Z) saturate).

(** Buffers for the ticker: T1 is running and has a container and a managed
    agent change, T2 is stopped, T3 is unknown to the task engine. *)
Definition sampleState : TaskEngineState :=
  {[ "T1" := mkTask "T1" 4%Z 100%Z 0%Z 0%Z; "T2" := mkTask "T2" 5%Z 100%Z 120%Z 130%Z ]}.

Definition bufferedWorld : World :=
  default (NewTaskHandler 0 0%Z)
    (run 5%Z (NewTaskHandler 0 0%Z)
       [ Submit (containerEventOf (mkContainerStateChange "T1" "c1" 4%Z)) 0;
         Submit (managedAgentEventOf (mkManagedAgentStateChange "T1" "a1" 4%Z)) 0;
         Submit (containerEventOf (mkContainerStateChange "T2" "c2" 5%Z)) 0;
         Submit (managedAgentEventOf (mkManagedAgentStateChange "T3" "a3" 4%Z)) 0 ]).

(** ** Further observations *)

(** The order of the two kinds of lock: the handler's lock is never taken
    while the lock of an event list is held. *)
Definition isQueueLock (m : Mutex) : bool :=
  match m with QueueLock _ => true | HandlerLock => false end.

Fixpoint lockOrdered (held : list Mutex) (tr : list Action) : bool :=
  match tr with
  | [] => true
  | ALock m :: tr | ARLock m :: tr =>
      (isQueueLock m || negb (existsb isQueueLock held)) && lockOrdered (m :: held) tr
  | AUnlock m :: tr | ARUnlock m :: tr =>
      lockOrdered (filter (λ h, negb (mutex_eqb h m)) held) tr
  | ARead _ :: tr | AWrite _ :: tr | AGo _ _ :: tr => lockOrdered held tr
  end.

(** The container and the managed agent changes for one ARN among a sequence
    of events, in the order of the sequence. *)
Definition containerChangesFor (arn : string) (changes : list Event)
    : list ContainerStateChange :=
  omap (λ change,
          match GetEventType change, asContainerStateChange change with
          | ContainerEvent, Some e =>
              if decide (csc_TaskArn e = arn) then Some e else None
          | _, _ => None
          end) changes.

Definition managedAgentChangesFor (arn : string) (changes : list Event)
    : list ManagedAgentStateChange :=
  omap (λ change,
          match GetEventType change, asManagedAgentStateChange change with
          | ManagedAgentEvent, Some e =>
              if decide (masc_TaskArn e = arn) then Some e else None
          | _, _ => None
          end) changes.

(** An event that AddStateChangeEvent flushes: a task event whose type
    assertion succeeds. *)
Definition isTaskChange (change : Event) : bool :=
  match GetEventType change, asTaskStateChange change with
  | TaskEvent, Some _ => true
  | _, _ => false
  end.

(** Every event list holds events of its own ARN only, the registry maps an
    ARN to a list of that ARN, and a goroutine drains a list of the ARN it
    was started for; all pointers in use were handed out by [new]. *)
Definition sharded (w : World) : Prop :=
  (∀ l, l < next w →
        Forall (λ e, taskArn e = taskARN (heap w l)) (events (heap w l))) ∧
  (∀ arn l, tasksToEvents (handler w) !! arn = Some l →
            l < next w ∧ taskARN (heap w l) = arn) ∧
  Forall (λ g, g_taskEvents g < next w ∧
               taskARN (heap w (g_taskEvents g)) = g_taskARN g) (goroutines w).

(** One round of the ticker: it fires, and its loop hands in the task
    changes it gathered. *)
Definition tickerRound (state : TaskEngineState) (n : nat) : list Label :=
  Tick state :: replicate n TickSubmit.

(** ** Further concrete inputs *)

(** The state after the calls of [raceSetup]. *)
Definition raceWorld : World :=
  default (NewTaskHandler 0 0%Z) (run 5%Z (NewTaskHandler 0 0%Z) raceSetup).

(** One task change handed in, its goroutine past Wait; and the state after
    that goroutine's drain step with the remote API accepting. *)
Definition acquiredWorld : World :=
  default (NewTaskHandler 0 0%Z)
    (run 5%Z (NewTaskHandler 0 0%Z)
       [Submit (taskEventOf (sampleTaskChange "T" 4%Z)) 0; Acquire 0]).

Definition drainedWorld : World :=
  default acquiredWorld (step 5%Z acquiredWorld (Drain 0 envTaskAccepted)).

(** The task predicate holds and the remote API fails with an error that
    carries no AWS error code. *)
Definition connectionReset : error := errors_New "connection reset".

Definition envTaskTransient : Env :=
  mkEnv (λ _, false) (λ _, true) (λ _, false) (λ _ _, Some connectionReset).

(** Changes for two tasks, and a task change for the first. *)
Definition scenarioChanges : list Event :=
  [ containerEventOf (mkContainerStateChange "T1" "c1" 4%Z);
    managedAgentEventOf (mkManagedAgentStateChange "T1" "a1" 4%Z);
    containerEventOf (mkContainerStateChange "T2" "c2" 4%Z) ].

(** ** The response helpers (package utils) *)

Module utils.

(** The calls a function makes on its http.ResponseWriter, in order:
    w.Header().Set(key, value), w.WriteHeader(statusCode), w.Write(body). *)
Inductive Call :=
  | HeaderSet (key value : string)
  | WriteHeader (statusCode : Z)
  | Write (body : string).

(** A response writer records the calls made on it; [writeError] is the
    error its Write returns, if any. *)
Record ResponseWriter := mkResponseWriter {
  calls : list Call;
  writeError : option string
}.

Definition call (c : Call) (w : ResponseWriter) : ResponseWriter :=
  mkResponseWriter (calls w ++ [c]) (writeError w).

(** The three seelog.Errorf lines of the file, with their arguments. *)
Inductive LogLine :=
  | UnableToWrite (requestType : string)
  | StatusLine (statusCode : Z) (requestType contentType response : string)
  | ErrorMarshaling (err : string).

Definition RequestTypeAgentMetadata : string := "agent metadata".

(** net/http's StatusInternalServerError. *)
Definition StatusInternalServerError : Z := 500.

(** logFriendlyContentType returns a friendly name for an http Content-Type
    header for the purpose of logging. *)
Definition logFriendlyContentType (contentType : string) : string :=
  if String.eqb contentType "application/json" then "JSON" else "plaintext".

Definition writeContentToResponse (w : ResponseWriter) (contentType : string)
    (httpStatusCode : Z) (requestType : string) (response : string)
    : ResponseWriter * list LogLine :=
  let w := call (HeaderSet "Content-Type" contentType) w in
  let w := call (WriteHeader httpStatusCode) w in
  let err := writeError w in
  let w := call (Write response) w in
  let log1 :=
    match err with
    | Some _ => [UnableToWrite requestType]
    | None => []
    end in
  let responseString := response in
  let responseString :=
    if String.eqb responseString "" then "<empty>" else responseString in
  let log2 :=
    if (400 <=? httpStatusCode)%Z && (httpStatusCode <=? 599)%Z
    then [StatusLine httpStatusCode requestType
            (logFriendlyContentType contentType) responseString]
    else [] in
  (w, log1 ++ log2).

(** WriteJSONToResponse writes the header, JSON response to a ResponseWriter. *)
Definition WriteJSONToResponse (w : ResponseWriter) (httpStatusCode : Z)
    (responseJSON : string) (requestType : string) : ResponseWriter * list LogLine :=
  writeContentToResponse w "application/json" httpStatusCode requestType responseJSON.

(** WriteStringToResponse writes the header, plaintext response to a
    ResponseWriter. *)
Definition WriteStringToResponse (w : ResponseWriter) (httpStatusCode : Z)
    (response : string) (requestType : string) : ResponseWriter * list LogLine :=
  writeContentToResponse w "text/plain" httpStatusCode requestType response.

(** WriteResponseIfMarshalError checks the error of json.Marshal; when it
    returns an error it has already written a response. *)
Definition WriteResponseIfMarshalError (w : ResponseWriter) (err : option string)
    : ResponseWriter * list LogLine * option string :=
  match err with
  | Some e =>
      let '(w, log) :=
        WriteJSONToResponse w StatusInternalServerError "{}" RequestTypeAgentMetadata in
      (w, log ++ [ErrorMarshaling e], Some "json marshal error")
  | None => (w, [], None)
  end.

(** WriteJSONResponse marshals the response and writes it; [marshalled] is
    the result of json.Marshal(response), the bytes or the error. *)
Definition WriteJSONResponse (w : ResponseWriter) (httpStatusCode : Z)
    (marshalled : string + string) (requestType : string)
    : ResponseWriter * list LogLine :=
  let '(responseJSON, err) :=
    match marshalled with
    | inl bytes => (bytes, None)
    | inr e => ("", Some e)
    end in
  let '(w, log, e) := WriteResponseIfMarshalError w err in
  match e with
  | Some _ => (w, log)
  | None =>
      let '(w, log') := WriteJSONToResponse w httpStatusCode responseJSON requestType in
      (w, log ++ log')
  end.

(** ConstructMuxVar constructs the mux var that is used in the gorilla/mux
    styled path, example: {id}, {id:[0-9]+}. *)
Definition ConstructMuxVar (name : string) (pattern : string) : string :=
  if String.eqb pattern "" then "{" +:+ name +:+ "}"
  else "{" +:+ name +:+ ":" +:+ pattern +:+ "}".

Definition Is5XXStatus (statusCode : Z) : bool :=
  (500 <=? statusCode)%Z && (statusCode <=? 599)%Z.

(** Whether a name holds a colon. *)
Definition colon : Ascii.ascii := Ascii.ascii_of_nat 58.

Fixpoint hasColon (s : string) : bool :=
  match s with
  | EmptyString => false
  | String c rest => Ascii.eqb c colon || hasColon rest
  end.

End utils.

(** * Proofs *)

(** Symbolic execution: unfold the monad, the primitive operations, the
    functions of the handler and the projections of the world, which is first
    split into its fields; the records of the queue are simplified after. *)
Ltac open_world w :=
  let sem := fresh "sem" in let te := fresh "te" in let cs := fresh "cs" in
  let ms := fresh "ms" in let cl := fresh "hcl" in let hp := fresh "hp" in
  let nx := fresh "nx" in let gs := fresh "gs" in let tp := fresh "tp" in
  let es := fresh "es" in let ck := fresh "ck" in let tr := fresh "tr" in
  destruct w as [[sem te cs ms cl] hp nx gs tp es ck tr].

Ltac exec_pass :=
  cbv beta iota zeta delta
    [ mbind M_bind mret M_ret gets modify emit
      Lock Unlock RLock RUnlock
      readContainerStates writeContainerStates deleteContainerStates
      readManagedAgentStates writeManagedAgentStates deleteManagedAgentStates
      lookupTasksToEvents writeTasksToEvents deleteTasksToEvents
      deref new readQueue updateQueue PushBack Remove setSending timeNow
      go_submitTaskEvents record Post set_goroutine
      set_handler set_heap set_next set_goroutines set_tickerPending
      set_effects set_clock set_trace set_submitSemaphore set_tasksToEvents
      set_tasksToContainerStates set_tasksToManagedAgentStates
      handler heap next goroutines tickerPending effects clock trace
      submitSemaphore tasksToEvents tasksToContainerStates
      tasksToManagedAgentStates client
      AddStateChangeEvent flushBatchUnsafe getTaskEventsUnsafe sendChange
      batchContainerEventUnsafe batchManagedAgentEventUnsafe removeTaskEvents
      submitFirstEvent submitEvent send handleInvalidParamException
      taskStateChangesToSend retryBody deferredBody sendEffects
      taskEventOf asTaskStateChange asContainerStateChange
      asManagedAgentStateChange GetEventType dynamicValue
      newSendableTaskEvent ] in *;
  cbn [ events sending createdAt taskARN set_events set_sending
        TaskARN Status Task_ Containers ManagedAgents Attachment
        PullStartedAt PullStoppedAt ExecutionStoppedAt
        set_Containers set_ManagedAgents taskArn negb
        g_taskEvents g_client g_taskARN g_pc set_pc fst snd tail ] in *;
  rewrite ?fn_lookup_insert.

Ltac exec := repeat (progress exec_pass).


(** Case analysis on the three predicates, the answer of the remote API and
    the error code, as submitFirstEvent goes through them. *)
Ltac drain_cases env event :=
  destruct (containerShouldBeSent env event) eqn:?;
    [|destruct (taskShouldBeSent env event) eqn:?;
      [|destruct (taskAttachmentShouldBeSent env event) eqn:?]];
  exec;
  try (let err := fresh "err" in
       destruct (submitStateChange env _ event) as [err|] eqn:?; exec;
       try destruct (IsAWSErrorCodeEqual err _) eqn:?; exec);
  rewrite ?fn_lookup_insert; exec.

(** ** The queue: sendChange and submitFirstEvent *)

(** X13: sendChange pushes the change at the back of the list, leaves the
    sending flag set, and starts a goroutine exactly when the flag was clear,
    all under the list's lock; other lists and the handler are untouched. *)
Lemma sendChange_spec (l : loc) (change : sendableEvent) (cl : ECSClient) (w : World) :
  let w' := (sendChange l change cl w).2 in
  events (heap w' l) = events (heap w l) ++ [change] ∧
  sending (heap w' l) = true ∧
  goroutines w' = goroutines w ++
    (if sending (heap w l) then []
     else [mkGoroutine l cl (taskArn change) AtWait]) ∧
  (∀ l', l' ≠ l → heap w' l' = heap w l') ∧
  handler w' = handler w ∧
  ∃ acts, trace w' = trace w ++ acts ∧ disciplined [] acts = true.
Proof.
  open_world w. exec. rewrite ?fn_lookup_insert. cbn.
  destruct (sending (hp l)) eqn:Hs; cbn; rewrite ?fn_lookup_insert; cbn.
  - rewrite app_nil_r. repeat split; auto.
    + intros l' Hne. by rewrite fn_lookup_insert_ne.
    + rewrite <- !app_assoc. eexists. split; [reflexivity|].
      cbn. by rewrite Nat.eqb_refl.
  - repeat split; auto.
    + intros l' Hne. by rewrite ?fn_lookup_insert_ne.
    + rewrite <- !app_assoc. eexists. split; [reflexivity|].
      cbn. by rewrite Nat.eqb_refl.
Qed.

(** A drain step touches only the front: the list afterwards is the list
    before or its tail, and every remote call of the step is for the head. *)
Lemma submitFirstEvent_front_only (env : Env) (l : loc) (w : World) :
  let w' := (submitFirstEvent env l w).2 in
  (events (heap w' l) = events (heap w l) ∨ events (heap w' l) = tail (events (heap w l))) ∧
  ∃ es, effects w' = effects w ++ es ∧
    ∀ api ty event res, RemoteCall api ty event res ∈ es → head (events (heap w l)) = Some event.
Proof.
  open_world w. exec.
  destruct (events (hp l)) as [|event rest] eqn:Hev; cbn.
  - rewrite fn_lookup_insert. cbn. split; [by left|].
    exists []. rewrite app_nil_r. split; [done|]. intros ???? Hin. inversion Hin.
  - drain_cases env event; rewrite ?Hev; cbn.
    all: try (destruct rest; cbn; rewrite ?fn_lookup_insert; cbn; rewrite ?Hev; cbn).
    all: split; [auto|].
    all: rewrite <- ?app_assoc; eexists; (split; [try reflexivity; by rewrite app_nil_r|]).
    all: intros ???? Hin; repeat (apply elem_of_cons in Hin as [Hin|Hin]; [by inversion Hin|]);
      try by inversion Hin.
Qed.

(** C5: for the event at the front of the list, submitFirstEvent tries
    containerShouldBeSent, then taskShouldBeSent, then
    taskAttachmentShouldBeSent, and the first predicate that holds selects
    the path: the container call with the container marker, the task call
    with the task marker, or the task call with the attachment marker; when
    none holds nothing is called.  An event whose container predicate holds
    goes through the container path whatever its variant. *)
Theorem classification_order (env : Env) (l : loc) (w : World)
    (event : sendableEvent) (rest : list sendableEvent) :
  events (heap w l) = event :: rest →
  effects (submitFirstEvent env l w).2 = effects w ++
    (if containerShouldBeSent env event then
       sendEffects sendContainerStatusToECS setContainerChangeSent "container" env event
     else if taskShouldBeSent env event then
       sendEffects sendTaskStatusToECS setTaskChangeSent "task" env event
     else if taskAttachmentShouldBeSent env event then
       sendEffects sendTaskStatusToECS setTaskAttachmentSent "task attachment" env event
     else []).
Proof.
  intros Hev. open_world w. exec. rewrite Hev.
  drain_cases env event; rewrite ?Hev; cbn.
  all: try (destruct rest; cbn).
  all: rewrite <- ?app_assoc, ?app_nil_r; reflexivity.
Qed.

Lemma classification_order_witness :
  effects (submitFirstEvent envContainerInvalid 0 worldOneEvent).2 =
    effects worldOneEvent ++
      [RemoteCall sendContainerStatusToECS "container"
         (TaskChange (sampleTaskChange "T" 4%Z)) (Some invalidParameter)].
Proof.
  apply (classification_order envContainerInvalid 0 worldOneEvent
           (TaskChange (sampleTaskChange "T" 4%Z)) []).
  vm_compute. reflexivity.
Defined.

(** C3: when the three predicates of the front event are all false, the
    drain step removes that event from the list, calls no remote API, writes
    no sent marker and reports no error. *)
Theorem redundant_event_dropped_silently (env : Env) (l : loc) (w : World)
    (event : sendableEvent) (rest : list sendableEvent) :
  events (heap w l) = event :: rest →
  containerShouldBeSent env event = false →
  taskShouldBeSent env event = false →
  taskAttachmentShouldBeSent env event = false →
  let '(r, w') := submitFirstEvent env l w in
  events (heap w' l) = rest ∧ effects w' = effects w ∧ r.2 = None.
Proof.
  intros Hev Hc Ht Ha. open_world w. exec. rewrite Hev, Hc, Ht, Ha. cbn.
  rewrite ?fn_lookup_insert. cbn. rewrite ?Hev. cbn.
  destruct rest; cbn; rewrite ?fn_lookup_insert; cbn; auto.
Qed.

Lemma redundant_event_dropped_silently_witness :
  let '(r, w') := submitFirstEvent envRedundant 0 worldOneEvent in
  events (heap w' 0) = [] ∧ effects w' = effects worldOneEvent ∧ r.2 = None.
Proof.
  apply (redundant_event_dropped_silently envRedundant 0 worldOneEvent
           (TaskChange (sampleTaskChange "T" 4%Z)) []); reflexivity.
Defined.

(** X14: invalid parameter on the task and the task attachment path: the
    step returns done false with the error, the front event is removed, no
    marker is written, and the rest of the list is kept. *)
Lemma invalid_parameter_task_paths (env : Env) (l : loc) (w : World)
    (event : sendableEvent) (rest : list sendableEvent) (err : error) :
  events (heap w l) = event :: rest →
  containerShouldBeSent env event = false →
  taskShouldBeSent env event || taskAttachmentShouldBeSent env event = true →
  submitStateChange env sendTaskStatusToECS event = Some err →
  IsAWSErrorCodeEqual err ErrCodeInvalidParameterException = true →
  let '(r, w') := submitFirstEvent env l w in
  r = (false, Some err) ∧ events (heap w' l) = rest ∧
  ∀ m e, SentMarker m e ∈ effects w' → SentMarker m e ∈ effects w.
Proof.
  intros Hev Hc Hta Hsub Hinv. open_world w. exec. rewrite Hev, Hc. cbn.
  destruct (taskShouldBeSent env event); cbn in *.
  - rewrite Hsub. cbn. rewrite Hinv. cbn. rewrite fn_lookup_insert. cbn.
    rewrite Hev. repeat split; auto.
    intros m e Hin. apply elem_of_app in Hin as [Hin|Hin]; [done|].
    apply list_elem_of_singleton in Hin. inversion Hin.
  - rewrite Hta. rewrite Hsub. cbn. rewrite Hinv. cbn. rewrite fn_lookup_insert. cbn.
    rewrite Hev. repeat split; auto.
    intros m e Hin. apply elem_of_app in Hin as [Hin|Hin]; [done|].
    apply list_elem_of_singleton in Hin. inversion Hin.
Qed.

(** On the container path any error, invalid parameter included, leaves the
    list as it was. *)
Lemma container_path_error_keeps_event (env : Env) (l : loc) (w : World)
    (event : sendableEvent) (rest : list sendableEvent) (err : error) :
  events (heap w l) = event :: rest →
  containerShouldBeSent env event = true →
  submitStateChange env sendContainerStatusToECS event = Some err →
  let '(r, w') := submitFirstEvent env l w in
  r = (false, Some err) ∧ events (heap w' l) = event :: rest.
Proof.
  intros Hev Hc Hsub. open_world w. exec. rewrite Hev, Hc. cbn.
  rewrite Hsub. cbn. auto.
Qed.

(** C4: on the container path an invalid parameter error does not remove
    the front event.  Here the list holds one event whose container predicate
    holds and the remote API answers invalid parameter: the step returns the
    error with done false, the list still holds the event and the sending
    flag stays set, so the event is submitted again. *)
Theorem invalid_parameter_on_container_path_is_retried :
  let '(r, w') := submitFirstEvent envContainerInvalid 0 worldOneEvent in
  IsAWSErrorCodeEqual invalidParameter ErrCodeInvalidParameterException = true ∧
  r = (false, Some invalidParameter) ∧
  events (heap w' 0) = events (heap worldOneEvent 0) ∧
  events (heap w' 0) = [TaskChange (sampleTaskChange "T" 4%Z)] ∧
  sending (heap w' 0) = true.
Proof. vm_compute. auto. Qed.

(** C6: a drain step returns done exactly when it returns no error and the
    list is empty when it returns; it clears the sending flag only when the
    list is empty, clears it whenever it returns done, and otherwise leaves it
    as it was; on an empty list it returns done without an error. *)
Theorem submitFirstEvent_done (env : Env) (l : loc) (w : World) :
  let '((done, err), w') := submitFirstEvent env l w in
  (done = true ↔ err = None ∧ events (heap w' l) = []) ∧
  (sending (heap w' l) = false → sending (heap w l) = false ∨ events (heap w' l) = []) ∧
  (done = true → sending (heap w' l) = false) ∧
  (done = false → sending (heap w' l) = sending (heap w l)) ∧
  (events (heap w l) = [] → done = true ∧ err = None).
Proof.
  open_world w. exec.
  destruct (events (hp l)) as [|event rest] eqn:Hev; cbn.
  - rewrite fn_lookup_insert. cbn. rewrite Hev. repeat split; auto; done.
  - drain_cases env event; rewrite ?Hev; cbn.
    all: try (destruct rest; cbn; rewrite ?fn_lookup_insert; cbn; rewrite ?Hev; cbn).
    all: repeat split; auto; try done; try (intros [? ?]; done).
Qed.

Lemma last_event_invalid_parameter :
  (submitFirstEvent envTaskInvalid 0 worldOneEvent).1.1 = false ∧
  events (heap worldOneEvent 0) = [TaskChange (sampleTaskChange "T" 4%Z)] ∧
  events (heap (submitFirstEvent envTaskInvalid 0 worldOneEvent).2 0) = [].
Proof. vm_compute. auto. Qed.

(** C6, as first stated: done would be returned exactly when the list is
    empty on entry or after the step.  With one event on the task path and an
    invalid parameter answer the list is empty after the step and done is
    false. *)
Lemma done_iff_list_empty_fails :
  ¬ (∀ (env : Env) (l : loc) (w : World),
       let '((done, _), w') := submitFirstEvent env l w in
       done = true ↔ events (heap w l) = [] ∨ events (heap w' l) = []).
Proof.
  intros H. specialize (H envTaskInvalid 0 worldOneEvent).
  pose proof last_event_invalid_parameter as (Hd & _ & He).
  destruct (submitFirstEvent envTaskInvalid 0 worldOneEvent) as [[done err] w'].
  cbn in Hd, He. subst done. destruct H as [_ H]. discriminate H. by right.
Qed.

(** ** The handler: AddStateChangeEvent *)

(** The actions added to the trace, and their discipline. *)
Ltac solve_trace :=
  rewrite <- ?app_assoc; eexists; split; [reflexivity|];
  cbn; rewrite ?Nat.eqb_refl; cbn.

(** The same for a trace given in full, between Lock and Unlock of the
    handler's lock. *)
Ltac solve_under_lock :=
  rewrite <- ?app_assoc; cbn; rewrite ?Nat.eqb_refl; cbn;
  repeat split; try reflexivity;
  [ let Hin := fresh in
    intros Hin;
    repeat (apply elem_of_cons in Hin as [Hin|Hin]; [congruence|]);
    by apply elem_of_nil in Hin
  | set_solver
  | set_solver ].

(** C1: AddStateChangeEvent on a task state change returns no error; the
    event at the back of the task's event list is the task change with the
    container and managed agent sequences that were buffered for its ARN
    appended, in buffer order, to what it carried; both buffer entries of the
    ARN are removed; and all of it happens between Lock and Unlock of the
    handler's lock, the trace obeying the locking discipline. *)
Theorem flush_attaches_buffered (event : TaskStateChange) (cl : ECSClient) (w : World) :
  let arn := TaskARN event in
  let cs := default [] (tasksToContainerStates (handler w) !! arn) in
  let ms := default [] (tasksToManagedAgentStates (handler w) !! arn) in
  let '(err, w') := AddStateChangeEvent (taskEventOf event) cl w in
  err = None ∧
  tasksToContainerStates (handler w') = delete arn (tasksToContainerStates (handler w)) ∧
  tasksToManagedAgentStates (handler w') =
    delete arn (tasksToManagedAgentStates (handler w)) ∧
  (∃ l e, tasksToEvents (handler w') !! arn = Some l ∧
          last (events (heap w' l)) = Some (TaskChange e) ∧
          TaskARN e = arn ∧ Status e = Status event ∧
          Containers e = Containers event ++ cs ∧
          ManagedAgents e = ManagedAgents event ++ ms) ∧
  ∃ mid, trace w' = trace w ++ (ALock HandlerLock :: mid ++ [AUnlock HandlerLock]) ∧
         (AUnlock HandlerLock ∉ mid) ∧
         AWrite RContainerStates ∈ mid ∧
         AWrite RManagedAgentStates ∈ mid ∧
         disciplined [] (ALock HandlerLock :: mid ++ [AUnlock HandlerLock]) = true.
Proof.
  open_world w. exec.
  destruct (te !! TaskARN event) as [l|] eqn:Hl; exec.
  - destruct (sending (hp l)) eqn:Hs; exec.
    all: repeat split; auto.
    all: try (exists l; eexists; rewrite ?fn_lookup_insert; exec;
              rewrite Hl, last_snoc; repeat split; reflexivity).
    + exists [ARead RContainerStates; AWrite RContainerStates;
              ARead RManagedAgentStates; AWrite RManagedAgentStates;
              ARead RTasksToEvents; ALock (QueueLock l); AWrite (RQueue l);
              ARead (RQueue l); AUnlock (QueueLock l)].
      solve_under_lock.
    + exists [ARead RContainerStates; AWrite RContainerStates;
              ARead RManagedAgentStates; AWrite RManagedAgentStates;
              ARead RTasksToEvents; ALock (QueueLock l); AWrite (RQueue l);
              ARead (RQueue l); AWrite (RQueue l); AGo l (TaskARN event);
              AUnlock (QueueLock l)].
      solve_under_lock.
  - repeat split; auto.
    + exists nx. eexists. rewrite ?fn_lookup_insert. exec.
      rewrite lookup_insert_eq. repeat split; reflexivity.
    + exists [ARead RContainerStates; AWrite RContainerStates;
              ARead RManagedAgentStates; AWrite RManagedAgentStates;
              ARead RTasksToEvents; AWrite RTasksToEvents;
              ALock (QueueLock nx); AWrite (RQueue nx);
              ARead (RQueue nx); AWrite (RQueue nx); AGo nx (TaskARN event);
              AUnlock (QueueLock nx)].
      solve_under_lock.
Qed.

(** What AddStateChangeEvent leaves alone, whatever the event. *)
Lemma AddStateChangeEvent_frame (change : Event) (cl : ECSClient) (w : World) :
  let w' := (AddStateChangeEvent change cl w).2 in
  submitSemaphore (handler w') = submitSemaphore (handler w) ∧
  client (handler w') = client (handler w) ∧
  tickerPending w' = tickerPending w ∧
  effects w' = effects w ∧
  clock w' = clock w ∧
  ∃ extra, goroutines w' = goroutines w ++ extra ∧
           Forall (λ g, g_pc g = AtWait) extra.
Proof.
  open_world w. destruct change as [ty dyn].
  destruct ty, dyn; exec.
  all: try (repeat split; auto; exists []; by rewrite app_nil_r).
  destruct (te !! TaskARN e) as [l|] eqn:Hl; exec; rewrite ?fn_lookup_insert; exec.
  - destruct (sending (hp l)); exec; repeat split; auto.
    + exists []; by rewrite app_nil_r.
    + eexists; split; [reflexivity|]. by repeat constructor.
  - rewrite ?fn_lookup_insert; exec. repeat split; auto.
    eexists; split; [reflexivity|]. by repeat constructor.
Qed.

(** C10: when AddStateChangeEvent returns an error, the handler's maps, the
    semaphore, the store of event lists, the goroutines and the effects are
    what they were before the call, the only actions are Lock and Unlock of
    the handler's lock, and the error comes from an unknown discriminator or a
    failed type assertion. *)
Theorem AddStateChangeEvent_error_keeps_state
    (change : Event) (cl : ECSClient) (w w' : World) (err : error) :
  AddStateChangeEvent change cl w = (Some err, w') →
  handler w' = handler w ∧
  heap w' = heap w ∧
  next w' = next w ∧
  goroutines w' = goroutines w ∧
  tickerPending w' = tickerPending w ∧
  effects w' = effects w ∧
  clock w' = clock w ∧
  trace w' = trace w ++ [ALock HandlerLock; AUnlock HandlerLock] ∧
  match GetEventType change with
  | TaskEvent => asTaskStateChange change = None
  | ContainerEvent => asContainerStateChange change = None
  | ManagedAgentEvent => asManagedAgentStateChange change = None
  | OtherEvent _ => True
  end.
Proof.
  open_world w. destruct change as [ty dyn]. intros H.
  destruct ty, dyn; exec.
  all: try (injection H as _ <-; cbn; rewrite <- ?app_assoc; by repeat split).
  all: try discriminate H.
  destruct (te !! TaskARN e) as [l|]; exec; rewrite ?fn_lookup_insert in H; exec;
    [destruct (sending (hp l)); exec|]; discriminate H.
Qed.

Lemma AddStateChangeEvent_error_keeps_state_witness :
  let change := mkEvent (OtherEvent 9) (DynOther "attachment") in
  let r := AddStateChangeEvent change 0 worldOneEvent in
  r.1 = Some (errors_New
    "eventhandler: unable to determine event type from state change event") ∧
  handler r.2 = handler worldOneEvent ∧
  heap r.2 = heap worldOneEvent ∧
  goroutines r.2 = goroutines worldOneEvent ∧
  effects r.2 = effects worldOneEvent.
Proof.
  intros change r. split; [reflexivity|].
  destruct (AddStateChangeEvent_error_keeps_state change 0 worldOneEvent r.2
              (errors_New
                 "eventhandler: unable to determine event type from state change event")
              eq_refl) as (Hh & Hhp & _ & Hg & _ & He & _).
  auto.
Defined.

(** X18: AddStateChangeEvent returns an error exactly when the event's type
    is none of the three it handles or the type assertion for the declared
    type fails; it never fails for another reason. *)
Lemma AddStateChangeEvent_error_iff (change : Event) (cl : ECSClient) (w : World) :
  is_Some (AddStateChangeEvent change cl w).1 ↔
  match GetEventType change with
  | TaskEvent => asTaskStateChange change = None
  | ContainerEvent => asContainerStateChange change = None
  | ManagedAgentEvent => asManagedAgentStateChange change = None
  | OtherEvent _ => True
  end.
Proof.
  open_world w. destruct change as [ty dyn].
  destruct ty, dyn; exec.
  all: try (split; [done | intros _; by eexists]).
  all: try (split; [intros [? ?]; done | done]).
  destruct (te !! TaskARN e) as [l|]; exec; rewrite ?fn_lookup_insert; exec;
    [destruct (sending (hp l)); exec|].
  all: split; [intros [? ?]; done | done].
Qed.

(** ** The drain ticker: taskStateChangesToSend *)

Lemma nonemptyEntries_lookup {V} (m : gmap string (list V)) :
  nonemptyEntries m = true ↔ ∀ k l, m !! k = Some l → l ≠ [].
Proof.
  unfold nonemptyEntries. rewrite forallb_forall. split.
  - intros H k l Hl. specialize (H (k, l)). cbn in H.
    destruct l; [|done]. discriminate H.
    apply list_elem_of_In. by apply elem_of_map_to_list.
  - intros H [k l] Hin. cbn. apply list_elem_of_In, elem_of_map_to_list in Hin.
    specialize (H k l Hin). by destruct l.
Qed.

Section DrainTickerProofs.

Variable TaskStopped : TaskStatus.
Variable state : TaskEngineState.

Lemma containerPass_lookup (events : gmap string TaskStateChange) (k arn : string) :
  containerPass TaskStopped state events k !! arn =
    if decide (k = arn) then
      match eligible TaskStopped state arn with Some ev => Some ev | None => events !! arn end
    else events !! arn.
Proof.
  unfold containerPass, eligible. case_decide as Hk.
  - subst k. destruct (TaskByArn state arn) as [task|]; [|done].
    cbn. destruct (TaskStopped <=? GetKnownStatus task)%Z; [done|].
    by rewrite lookup_insert_eq.
  - destruct (TaskByArn state k) as [task|]; [|done].
    cbn. destruct (TaskStopped <=? GetKnownStatus task)%Z; [done|].
    by rewrite lookup_insert_ne.
Qed.

Lemma managedAgentPass_lookup (events : gmap string TaskStateChange) (k arn : string) :
  managedAgentPass TaskStopped state events k !! arn =
    match events !! arn with
    | Some ev => Some ev
    | None => if decide (k = arn) then eligible TaskStopped state arn else None
    end.
Proof.
  unfold managedAgentPass, eligible.
  destruct (events !! k) as [evk|] eqn:Hk.
  - destruct (events !! arn) as [ev|] eqn:Harn; [done|].
    case_decide; [congruence | done].
  - destruct (TaskByArn state k) as [task|] eqn:Ht; cbn.
    + destruct (TaskStopped <=? GetKnownStatus task)%Z eqn:Hs.
      * destruct (events !! arn) eqn:Harn; [done|].
        case_decide; [subst; by rewrite Ht, Hs | done].
      * destruct (decide (k = arn)) as [->|Hne].
        -- rewrite lookup_insert_eq, Hk. cbn. by rewrite Ht, Hs.
        -- rewrite lookup_insert_ne by done.
           by destruct (events !! arn).
    + destruct (events !! arn) eqn:Harn; [done|].
      case_decide; [subst; by rewrite Ht | done].
Qed.

Lemma containerPass_foldl (keys : list string) (events : gmap string TaskStateChange)
    (arn : string) :
  foldl (containerPass TaskStopped state) events keys !! arn =
    if decide (arn ∈ keys) then
      match eligible TaskStopped state arn with Some ev => Some ev | None => events !! arn end
    else events !! arn.
Proof.
  revert events. induction keys as [|k keys IH]; intros events; cbn [foldl].
  - rewrite decide_False; [done|]. apply not_elem_of_nil.
  - rewrite IH, containerPass_lookup.
    destruct (decide (arn ∈ keys)) as [Hin|Hin].
    + rewrite (decide_True (P := arn ∈ k :: keys)) by (apply elem_of_cons; auto).
      destruct (eligible TaskStopped state arn); [done|]. by destruct (decide (k = arn)).
    + destruct (decide (k = arn)) as [->|Hne].
      * rewrite (decide_True (P := arn ∈ arn :: keys)) by (apply elem_of_cons; auto).
        done.
      * rewrite (decide_False (P := arn ∈ k :: keys)); [done|].
        rewrite elem_of_cons. by intros [?|?].
Qed.

Lemma managedAgentPass_foldl (keys : list string) (events : gmap string TaskStateChange)
    (arn : string) :
  foldl (managedAgentPass TaskStopped state) events keys !! arn =
    match events !! arn with
    | Some ev => Some ev
    | None => if decide (arn ∈ keys) then eligible TaskStopped state arn else None
    end.
Proof.
  revert events. induction keys as [|k keys IH]; intros events; cbn [foldl].
  - destruct (events !! arn); [done|]. rewrite decide_False; [done|].
    apply not_elem_of_nil.
  - rewrite IH, managedAgentPass_lookup.
    destruct (events !! arn) as [ev|]; [done|].
    destruct (decide (k = arn)) as [->|Hne].
    + rewrite (decide_True (P := arn ∈ arn :: keys)) by (apply elem_of_cons; auto).
      destruct (eligible TaskStopped state arn); [done|]. by destruct (decide (arn ∈ keys)).
    + destruct (decide (arn ∈ keys)) as [Hin|Hin].
      * rewrite (decide_True (P := arn ∈ k :: keys)) by (apply elem_of_cons; auto).
        done.
      * rewrite (decide_False (P := arn ∈ k :: keys)); [done|].
        rewrite elem_of_cons. by intros [?|?].
Qed.

(** The map built by the two loops, key by key; it does not depend on the
    order in which the loops walk the keys. *)
Lemma synthesize_lookup (containerKeys agentKeys : list string) (arn : string) :
  synthesize TaskStopped state containerKeys agentKeys !! arn =
    if decide (arn ∈ containerKeys ∨ arn ∈ agentKeys) then eligible TaskStopped state arn else None.
Proof.
  unfold synthesize. rewrite managedAgentPass_foldl, containerPass_foldl, lookup_empty.
  destruct (decide (arn ∈ containerKeys)) as [Hc|Hc].
  - rewrite (decide_True (P := _ ∨ _)); [|by left].
    destruct (eligible TaskStopped state arn); [done|]. by destruct (decide (arn ∈ agentKeys)).
  - destruct (decide (arn ∈ agentKeys)) as [Ha|Ha].
    + rewrite (decide_True (P := _ ∨ _)); [done | by right].
    + rewrite (decide_False (P := _ ∨ _)); [done | by intros [?|?]].
Qed.

(** X17: the events taskStateChangesToSend synthesizes do not depend on the
    order in which the keys of the two buffers are visited (Go's map
    iteration order is unspecified). *)
Lemma synthesize_permutation (ck ck' ak ak' : list string) :
  ck ≡ₚ ck' → ak ≡ₚ ak' →
  synthesize TaskStopped state ck ak = synthesize TaskStopped state ck' ak'.
Proof.
  intros Hc Ha. apply map_eq. intros arn. rewrite !synthesize_lookup.
  destruct (decide (arn ∈ ck ∨ arn ∈ ak)) as [H|H].
  - rewrite decide_True; [done|]. by rewrite <- Hc, <- Ha.
  - rewrite decide_False; [done|]. by rewrite <- Hc, <- Ha.
Qed.

Lemma elem_of_keysOf {V} (m : gmap string V) (arn : string) :
  arn ∈ keysOf m ↔ is_Some (m !! arn).
Proof.
  unfold keysOf. rewrite list_elem_of_fmap. split.
  - intros [[k v] [-> Hin]]. apply elem_of_map_to_list in Hin. by eexists.
  - intros [v Hv]. exists (arn, v). split; [done|]. by apply elem_of_map_to_list.
Qed.

Lemma eligible_Some (arn : string) (ev : TaskStateChange) :
  eligible TaskStopped state arn = Some ev ↔
  ∃ task, TaskByArn state arn = Some task ∧
          (GetKnownStatus task < TaskStopped)%Z ∧
          ev = syntheticEvent arn task.
Proof.
  unfold eligible. destruct (TaskByArn state arn) as [task|]; cbn.
  - destruct (Z.leb_spec TaskStopped (GetKnownStatus task)).
    + split; [done|]. intros (t & [= <-] & ? & _). lia.
    + split.
      * intros [= <-]. by exists task.
      * intros (t & [= <-] & _ & ->). done.
  - split; [done|]. by intros (t & ? & _).
Qed.

Lemma syntheticEvent_fields (arn : string) (task : Task) :
  TaskARN (syntheticEvent arn task) = arn ∧
  Status (syntheticEvent arn task) = GetKnownStatus task ∧
  Task_ (syntheticEvent arn task) = Some task ∧
  Containers (syntheticEvent arn task) = [] ∧
  ManagedAgents (syntheticEvent arn task) = [] ∧
  PullStartedAt (syntheticEvent arn task) = effective (PullStartedAtUnsafe task) None ∧
  PullStoppedAt (syntheticEvent arn task) = effective (PullStoppedAtUnsafe task) None ∧
  ExecutionStoppedAt (syntheticEvent arn task) =
    effective (ExecutionStoppedAtUnsafe task) None.
Proof. by repeat split. Qed.

(** C8: taskStateChangesToSend returns at most one task change per ARN.
    Each one is for an ARN with an entry in the container or in the managed
    agent buffer (an entry holds at least one change when the buffers are
    well formed), whose task is known to the task engine with a known status
    below TaskStopped; it carries that status, the task and the timestamps set
    from the task.  Every such ARN gets its event.  The pass over the managed
    agent buffer keeps an event that is already in the map.  The handler is
    left as it was, and its maps are read under the read lock. *)
Theorem taskStateChangesToSend_spec (w : World) :
  let cs := tasksToContainerStates (handler w) in
  let ms := tasksToManagedAgentStates (handler w) in
  let '(taskEvents, w') := taskStateChangesToSend TaskStopped state w in
  NoDup (TaskARN <$> taskEvents) ∧
  (∀ ev, ev ∈ taskEvents →
     (is_Some (cs !! TaskARN ev) ∨ is_Some (ms !! TaskARN ev)) ∧
     (buffers_wf (handler w) →
        default [] (cs !! TaskARN ev) ≠ [] ∨ default [] (ms !! TaskARN ev) ≠ []) ∧
     ∃ task, TaskByArn state (TaskARN ev) = Some task ∧
             (GetKnownStatus task < TaskStopped)%Z ∧
             ev = syntheticEvent (TaskARN ev) task ∧
             Status ev = GetKnownStatus task ∧
             Task_ ev = Some task ∧
             PullStartedAt ev = effective (PullStartedAtUnsafe task) None ∧
             PullStoppedAt ev = effective (PullStoppedAtUnsafe task) None ∧
             ExecutionStoppedAt ev = effective (ExecutionStoppedAtUnsafe task) None) ∧
  (∀ arn task,
     is_Some (cs !! arn) ∨ is_Some (ms !! arn) →
     TaskByArn state arn = Some task →
     (GetKnownStatus task < TaskStopped)%Z →
     syntheticEvent arn task ∈ taskEvents) ∧
  (∀ (keys : list string) (events : gmap string TaskStateChange) arn ev,
     events !! arn = Some ev →
     foldl (managedAgentPass TaskStopped state) events keys !! arn = Some ev) ∧
  handler w' = handler w ∧ heap w' = heap w ∧ goroutines w' = goroutines w ∧
  ∃ acts, trace w' = trace w ++ acts ∧ disciplined [] acts = true.
Proof.
  open_world w. unfold taskStateChangesToSend. exec.
  set (events := synthesize TaskStopped state (keysOf cs) (keysOf ms)).
  assert (Hlook : ∀ arn ev, events !! arn = Some ev ↔
            (is_Some (cs !! arn) ∨ is_Some (ms !! arn)) ∧ eligible TaskStopped state arn = Some ev).
  { intros arn ev. unfold events. rewrite synthesize_lookup.
    destruct (decide (arn ∈ keysOf cs ∨ arn ∈ keysOf ms)) as [Hin|Hin];
      rewrite !elem_of_keysOf in Hin; [tauto|].
    split; [done | tauto]. }
  assert (Hkey : ∀ arn ev, events !! arn = Some ev → TaskARN ev = arn).
  { intros arn ev [_ He]%Hlook. apply eligible_Some in He as (t & _ & _ & ->).
    apply syntheticEvent_fields. }
  assert (Hkeys : TaskARN <$> (map_to_list events).*2 = (map_to_list events).*1).
  { rewrite <- list_fmap_compose. apply list_fmap_ext.
    intros i [k v] Hi. cbn. apply Hkey.
    apply elem_of_map_to_list. by eapply list_elem_of_lookup_2. }
  repeat split; auto.
  - rewrite Hkeys. apply NoDup_fst_map_to_list.
  - apply list_elem_of_fmap in H as [[k v] [-> Hin]].
    apply elem_of_map_to_list in Hin. cbn.
    rewrite (Hkey _ _ Hin). by apply Hlook in Hin as [? _].
  - intros [Hc Hm]. cbn in Hc, Hm.
    rewrite nonemptyEntries_lookup in Hc. rewrite nonemptyEntries_lookup in Hm.
    apply list_elem_of_fmap in H as [[k v] [-> Hin]].
    apply elem_of_map_to_list in Hin. cbn.
    rewrite (Hkey _ _ Hin). apply Hlook in Hin as [[[l Hl]|[l Hl]] _].
    + left. rewrite Hl. cbn. by eapply (Hc k l).
    + right. rewrite Hl. cbn. by eapply (Hm k l).
  - apply list_elem_of_fmap in H as [[k v] [-> Hin]].
    apply elem_of_map_to_list in Hin. cbn.
    rewrite (Hkey _ _ Hin). apply Hlook in Hin as [_ He].
    apply eligible_Some in He as (task & Ht & Hs & ->).
    exists task. repeat split; auto.
  - intros arn task Hbuf Ht Hs.
    apply list_elem_of_fmap. exists (arn, syntheticEvent arn task). split; [done|].
    apply elem_of_map_to_list, Hlook. split; [done|].
    apply eligible_Some. by exists task.
  - intros keys evs arn ev Hev. by rewrite managedAgentPass_foldl, Hev.
  - rewrite <- !app_assoc. eexists. split; [reflexivity|]. done.
Qed.

End DrainTickerProofs.

Lemma taskStateChangesToSend_spec_witness :
  let cs := tasksToContainerStates (handler bufferedWorld) in
  let ms := tasksToManagedAgentStates (handler bufferedWorld) in
  let task1 := mkTask "T1" 4%Z 100%Z 0%Z 0%Z in
  (taskStateChangesToSend 5%Z sampleState bufferedWorld).1 =
    [mkTaskStateChange "T1" 4%Z (Some task1) [] [] None (Some 100%Z) None None] ∧
  buffers_wf (handler bufferedWorld) ∧
  (default [] (cs !! "T1") ≠ [] ∨ default [] (ms !! "T1") ≠ []).
Proof.
  assert (Hev : (taskStateChangesToSend 5%Z sampleState bufferedWorld).1 =
    [mkTaskStateChange "T1" 4%Z (Some (mkTask "T1" 4%Z 100%Z 0%Z 0%Z)) [] [] None
       (Some 100%Z) None None]) by (vm_compute; reflexivity).
  assert (Hwf : buffers_wf (handler bufferedWorld)) by (split; vm_compute; reflexivity).
  split; [exact Hev|]. split; [exact Hwf|].
  pose proof (taskStateChangesToSend_spec 5%Z sampleState bufferedWorld) as H.
  destruct (taskStateChangesToSend 5%Z sampleState bufferedWorld) as [taskEvents w'].
  cbn [fst] in Hev. destruct H as (_ & H & _).
  destruct (H (mkTaskStateChange "T1" 4%Z (Some (mkTask "T1" 4%Z 100%Z 0%Z 0%Z)) [] []
                 None (Some 100%Z) None None)) as (_ & Hne & _).
  - rewrite Hev. apply list_elem_of_singleton. reflexivity.
  - exact (Hne Hwf).
Defined.

(** ** The semaphore: permits held by goroutines *)

Lemma submitFirstEvent_frame (env : Env) (l : loc) (w : World) :
  let w' := (submitFirstEvent env l w).2 in
  handler w' = handler w ∧ goroutines w' = goroutines w ∧
  tickerPending w' = tickerPending w ∧ next w' = next w ∧ clock w' = clock w ∧
  ∀ l', l' ≠ l → heap w' l' = heap w l'.
Proof.
  open_world w. exec.
  destruct (events (hp l)) as [|event rest] eqn:Hev; exec.
  - repeat split; auto. intros l' Hne. by rewrite fn_lookup_insert_ne.
  - drain_cases env event; rewrite ?Hev; exec.
    all: try (destruct rest; exec).
    all: repeat split; auto.
    all: intros l' Hne; by rewrite ?fn_lookup_insert_ne.
Qed.

Lemma retryBody_frame (env : Env) (i : nat) (g : Goroutine) (w : World) :
  let w' := (retryBody env i g w).2 in
  submitSemaphore (handler w') = S (submitSemaphore (handler w)) ∧
  tasksToEvents (handler w') = tasksToEvents (handler w) ∧
  tasksToContainerStates (handler w') = tasksToContainerStates (handler w) ∧
  tasksToManagedAgentStates (handler w') = tasksToManagedAgentStates (handler w) ∧
  tickerPending w' = tickerPending w ∧
  ∃ pc, (pc = AtWait ∨ pc = AtRemoveTaskEvents) ∧
        goroutines w' = <[i := set_pc pc g]> (goroutines w).
Proof.
  open_world w. exec.
  destruct (events (hp (g_taskEvents g))) as [|event rest] eqn:Hev; exec.
  - repeat split; auto. exists AtRemoveTaskEvents. auto.
  - drain_cases env event; rewrite ?Hev; exec.
    all: try (destruct rest; exec).
    all: repeat split; auto.

    all: first [ by (exists AtRemoveTaskEvents; auto) | by (exists AtWait; auto) ].
Qed.

Lemma removeTaskEvents_frame (arn : string) (w : World) :
  let w' := (removeTaskEvents arn w).2 in
  submitSemaphore (handler w') = submitSemaphore (handler w) ∧
  tasksToEvents (handler w') = delete arn (tasksToEvents (handler w)) ∧
  tasksToContainerStates (handler w') = tasksToContainerStates (handler w) ∧
  tasksToManagedAgentStates (handler w') = tasksToManagedAgentStates (handler w) ∧
  goroutines w' = goroutines w ∧ tickerPending w' = tickerPending w ∧
  heap w' = heap w ∧ effects w' = effects w ∧
  ∃ acts, trace w' = trace w ++ acts ∧ disciplined [] acts = true.
Proof. open_world w. exec. repeat split; auto. solve_trace. done. Qed.

Lemma deferredBody_frame (i : nat) (g : Goroutine) (w : World) :
  let w' := (deferredBody i g w).2 in
  submitSemaphore (handler w') = submitSemaphore (handler w) ∧
  tasksToEvents (handler w') = delete (g_taskARN g) (tasksToEvents (handler w)) ∧
  tasksToContainerStates (handler w') = tasksToContainerStates (handler w) ∧
  tasksToManagedAgentStates (handler w') = tasksToManagedAgentStates (handler w) ∧
  goroutines w' = <[i := set_pc Exited g]> (goroutines w) ∧
  tickerPending w' = tickerPending w ∧
  heap w' = heap w ∧ effects w' = effects w.
Proof. open_world w. exec. by repeat split. Qed.

Lemma taskStateChangesToSend_frame (TaskStopped : TaskStatus) (state : TaskEngineState)
    (w : World) :
  let w' := (taskStateChangesToSend TaskStopped state w).2 in
  handler w' = handler w ∧ heap w' = heap w ∧ next w' = next w ∧
  goroutines w' = goroutines w ∧ tickerPending w' = tickerPending w ∧
  effects w' = effects w ∧ clock w' = clock w.
Proof. open_world w. exec. by repeat split. Qed.

Lemma countIf_app (p : Goroutine → bool) (gs extra : list Goroutine) :
  countIf p (gs ++ extra) = countIf p gs + countIf p extra.
Proof. unfold countIf. by rewrite filter_app, length_app. Qed.

Lemma countIf_none (p : Goroutine → bool) (gs : list Goroutine) :
  Forall (λ g, p g = false) gs → countIf p gs = 0.
Proof.
  unfold countIf. induction 1 as [|g gs Hg _ IH]; [done|].
  rewrite filter_cons_False; [done|]. congruence.
Qed.

Lemma countIf_insert (p : Goroutine → bool) (gs : list Goroutine) (i : nat)
    (g g' : Goroutine) :
  gs !! i = Some g →
  countIf p (<[i := g']> gs) + (if p g then 1 else 0) =
  countIf p gs + (if p g' then 1 else 0).
Proof.
  unfold countIf. revert i. induction gs as [|x gs IH]; intros i Hi; [done|].
  destruct i as [|i]; cbn in Hi.
  - injection Hi as ->. change (<[0 := g']> (g :: gs)) with (g' :: gs).
    destruct (p g) eqn:Hg, (p g') eqn:Hg'.
    + rewrite !filter_cons_True by done. cbn [length]. lia.
    + rewrite filter_cons_False, filter_cons_True by (done || congruence).
      cbn [length]. lia.
    + rewrite filter_cons_True, filter_cons_False by (done || congruence).
      cbn [length]. lia.
    + rewrite !filter_cons_False by congruence. lia.
  - specialize (IH i Hi). change (<[S i := g']> (x :: gs)) with (x :: <[i := g']> gs).
    destruct (p x) eqn:Hx.
    + rewrite !filter_cons_True by done. cbn [length]. lia.
    + rewrite !filter_cons_False by congruence. lia.
Qed.

Lemma countIf_insert_same (p : Goroutine → bool) (gs : list Goroutine) (i : nat)
    (g g' : Goroutine) :
  gs !! i = Some g → p g = p g' → countIf p (<[i := g']> gs) = countIf p gs.
Proof.
  intros Hi Hp. pose proof (countIf_insert p gs i g g' Hi) as H.
  rewrite Hp in H. lia.
Qed.

Lemma countIf_insert_gain (p : Goroutine → bool) (gs : list Goroutine) (i : nat)
    (g g' : Goroutine) :
  gs !! i = Some g → p g = false → p g' = true →
  countIf p (<[i := g']> gs) = S (countIf p gs).
Proof.
  intros Hi Hp Hp'. pose proof (countIf_insert p gs i g g' Hi) as H.
  rewrite Hp, Hp' in H. lia.
Qed.

Lemma countIf_insert_loss (p : Goroutine → bool) (gs : list Goroutine) (i : nat)
    (g g' : Goroutine) :
  gs !! i = Some g → p g = true → p g' = false →
  S (countIf p (<[i := g']> gs)) = countIf p gs.
Proof.
  intros Hi Hp Hp'. pose proof (countIf_insert p gs i g g' Hi) as H.
  rewrite Hp, Hp' in H. lia.
Qed.

Lemma permitCount_app (gs extra : list Goroutine) :
  Forall (λ g, g_pc g = AtWait) extra →
  countIf holdsPermit (gs ++ extra) = countIf holdsPermit gs.
Proof.
  intros Hextra. rewrite countIf_app, (countIf_none _ extra); [lia|].
  eapply Forall_impl; [exact Hextra|]. intros g Hg. unfold holdsPermit. by rewrite Hg.
Qed.

Lemma step_permitsBalanced (TaskStopped : TaskStatus) (w w' : World) (lbl : Label) :
  permitsBalanced w → step TaskStopped w lbl = Some w' → permitsBalanced w'.
Proof.
  unfold permitsBalanced, inflight. intros Hinv Hstep.
  destruct lbl as [change cl|state| |d|i|i env|i]; unfold step in Hstep.
  - apply (inj Some) in Hstep as <-.
    destruct (AddStateChangeEvent_frame change cl w) as (-> & _ & _ & _ & _ & extra & -> & Hx).
    by rewrite permitCount_app.
  - destruct (tickerPending w); [|done].
    pose proof (taskStateChangesToSend_frame TaskStopped state w) as (Hh & _ & _ & Hg & _).
    destruct (taskStateChangesToSend TaskStopped state w) as [evs w1].
    apply (inj Some) in Hstep as <-. cbn in *. by rewrite Hh, Hg.
  - destruct (tickerPending w) as [|ev rest]; [done|]. apply (inj Some) in Hstep as <-.
    destruct (AddStateChangeEvent_frame (taskEventOf ev) (client (handler w))
                (set_tickerPending rest w)) as (-> & _ & _ & _ & _ & extra & -> & Hx).
    by rewrite permitCount_app.
  - destruct (0 <=? d)%Z; [|done]. by apply (inj Some) in Hstep as <-.
  - destruct (goroutines w !! i) as [g|] eqn:Hg; [|done].
    destruct (g_pc g) eqn:Hpc; try done.
    unfold Wait in Hstep. destruct (submitSemaphore (handler w)) as [|n] eqn:Hsem; [done|].
    apply (inj Some) in Hstep as <-. cbn -[countIf].
    rewrite (countIf_insert_gain holdsPermit _ i g _ Hg);
      [lia | unfold holdsPermit; by rewrite Hpc | done].
  - destruct (goroutines w !! i) as [g|] eqn:Hg; [|done].
    destruct (g_pc g) eqn:Hpc; try done. apply (inj Some) in Hstep as <-.
    destruct (retryBody_frame env i g w) as (-> & _ & _ & _ & _ & pc & Hpc' & ->).
    pose proof (countIf_insert_loss holdsPermit _ i g (set_pc pc g) Hg) as Hc.
    rewrite <- Hc in Hinv; [lia | unfold holdsPermit; by rewrite Hpc |].
    by destruct Hpc' as [-> | ->].
  - destruct (goroutines w !! i) as [g|] eqn:Hg; [|done].
    destruct (g_pc g) eqn:Hpc; try done. apply (inj Some) in Hstep as <-.
    destruct (deferredBody_frame i g w) as (-> & _ & _ & _ & -> & _).
    rewrite (countIf_insert_same holdsPermit _ i g _ Hg);
      [lia | unfold holdsPermit; by rewrite Hpc].
Qed.

Lemma run_invariant (TaskStopped : TaskStatus) (P : World → Prop) :
  (∀ w w' lbl, P w → step TaskStopped w lbl = Some w' → P w') →
  ∀ lbls w w', P w → run TaskStopped w lbls = Some w' → P w'.
Proof.
  intros Hstep lbls. induction lbls as [|lbl lbls IH]; intros w w' Hw Hrun; cbn in Hrun.
  - by injection Hrun as <-.
  - destruct (step TaskStopped w lbl) as [w1|] eqn:Hs; [|done]. eauto.
Qed.

(** Only a drain step of a goroutine that holds a permit adds to the
    effects. *)
Lemma step_effects (TaskStopped : TaskStatus) (w w' : World) (lbl : Label) :
  step TaskStopped w lbl = Some w' →
  effects w' ≠ effects w →
  ∃ i env g, lbl = Drain i env ∧ goroutines w !! i = Some g ∧ holdsPermit g = true.
Proof.
  intros Hstep Hne.
  destruct lbl as [change cl|state| |d|i|i env|i]; unfold step in Hstep.
  - apply (inj Some) in Hstep as <-.
    destruct (AddStateChangeEvent_frame change cl w) as (_ & _ & _ & He & _). done.
  - destruct (tickerPending w); [|done].
    pose proof (taskStateChangesToSend_frame TaskStopped state w) as (_ & _ & _ & _ & _ & He & _).
    destruct (taskStateChangesToSend TaskStopped state w) as [evs w1].
    apply (inj Some) in Hstep as <-. done.
  - destruct (tickerPending w) as [|ev rest]; [done|]. apply (inj Some) in Hstep as <-.
    destruct (AddStateChangeEvent_frame (taskEventOf ev) (client (handler w))
                (set_tickerPending rest w)) as (_ & _ & _ & He & _). done.
  - destruct (0 <=? d)%Z; [|done]. by apply (inj Some) in Hstep as <-.
  - destruct (goroutines w !! i) as [g|] eqn:Hg; [|done].
    destruct (g_pc g) eqn:Hpc; try done.
    unfold Wait in Hstep. destruct (submitSemaphore (handler w)); [done|].
    by apply (inj Some) in Hstep as <-.
  - destruct (goroutines w !! i) as [g|] eqn:Hg; [|done].
    destruct (g_pc g) eqn:Hpc; try done.
    exists i, env, g. unfold holdsPermit. by rewrite Hpc.
  - destruct (goroutines w !! i) as [g|] eqn:Hg; [|done].
    destruct (g_pc g) eqn:Hpc; try done. apply (inj Some) in Hstep as <-.
    by destruct (deferredBody_frame i g w) as (_ & _ & _ & _ & _ & _ & _ & He).
Qed.

(** C9: in every state the handler reaches from NewTaskHandler, the
    goroutines between Wait and Post are at most concurrentEventCalls, which
    is 10; together with the free permits they are exactly that many; and a
    step that adds a remote call or a sent marker is the drain step of a
    goroutine that holds a permit. *)
Theorem permits_bound (TaskStopped : TaskStatus) (cl : ECSClient) (now : Time)
    (lbls : list Label) (w : World) :
  run TaskStopped (NewTaskHandler cl now) lbls = Some w →
  (inflight w ≤ concurrentEventCalls)%nat ∧
  concurrentEventCalls = 10 ∧
  submitSemaphore (handler w) + inflight w = concurrentEventCalls ∧
  ∀ lbl w', step TaskStopped w lbl = Some w' →
    effects w' ≠ effects w →
    ∃ i env g, lbl = Drain i env ∧ goroutines w !! i = Some g ∧ holdsPermit g = true.
Proof.
  intros Hrun.
  assert (Hbal : permitsBalanced w).
  { refine (run_invariant TaskStopped permitsBalanced _ lbls _ w _ Hrun).
    - intros w1 w2 lbl. apply step_permitsBalanced.
    - reflexivity. }
  unfold permitsBalanced in Hbal. repeat split; [lia | lia |].
  intros lbl w' Hstep Hne. by eapply step_effects.
Qed.

(** ** One goroutine per event list *)

Lemma countIf_singleton (p : Goroutine → bool) (g : Goroutine) :
  countIf p [g] = if p g then 1 else 0.
Proof.
  unfold countIf. destruct (p g) eqn:Hp.
  - by rewrite filter_cons_True.
  - rewrite filter_cons_False; [done | congruence].
Qed.

Lemma worksOn_new (l l0 : loc) (cl : ECSClient) (arn : string) :
  worksOn l0 (mkGoroutine l cl arn AtWait) = Nat.eqb l l0.
Proof. reflexivity. Qed.

Lemma AddStateChangeEvent_oneWorkerPerList (change : Event) (cl : ECSClient) (w : World) :
  oneWorkerPerList w → oneWorkerPerList (AddStateChangeEvent change cl w).2.
Proof.
  unfold oneWorkerPerList, workers.
  open_world w. destruct change as [ty dyn]. destruct ty, dyn; exec; try done.
  intros (Hcount & Hfresh & Hreg).
  destruct (te !! TaskARN e) as [l|] eqn:Hl; exec.
  - pose proof (Hreg _ _ Hl) as Hlt.
    destruct (sending (hp l)) eqn:Hs; exec.
    + split; [|split; [|done]].
      * intros l0. rewrite Hcount. destruct (decide (l0 = l)) as [->|Hne].
        -- rewrite ?fn_lookup_insert. exec. by rewrite Hs.
        -- by rewrite fn_lookup_insert_ne.
      * intros l0 Hl0. rewrite fn_lookup_insert_ne by lia. by apply Hfresh.
    + split; [|split; [|done]].
      * intros l0. rewrite countIf_app, countIf_singleton, worksOn_new, Hcount.
        destruct (decide (l0 = l)) as [->|Hne].
        -- rewrite ?fn_lookup_insert, Nat.eqb_refl. exec. by rewrite Hs.
        -- rewrite !fn_lookup_insert_ne by done.
           rewrite (proj2 (Nat.eqb_neq l l0)) by done. lia.
      * intros l0 Hl0. rewrite !fn_lookup_insert_ne by lia. by apply Hfresh.
  - split; [|split].
    + intros l0. rewrite countIf_app, countIf_singleton, worksOn_new, Hcount.
      destruct (decide (l0 = nx)) as [->|Hne].
      * rewrite ?fn_lookup_insert, Nat.eqb_refl. exec.
        rewrite (Hfresh nx) by lia. done.
      * rewrite !fn_lookup_insert_ne by done.
        rewrite (proj2 (Nat.eqb_neq nx l0)) by done. lia.
    + intros l0 Hl0. rewrite !fn_lookup_insert_ne by lia. apply Hfresh. lia.
    + intros arn l. rewrite lookup_insert. case_decide.
      * intros [= <-]. lia.
      * intros Hl'. apply Hreg in Hl'. lia.
Qed.

(** The drain step: the list of another pointer is left alone, and the
    goroutine leaves the loop exactly when it clears the flag. *)
Lemma retryBody_queue (env : Env) (i : nat) (g : Goroutine) (w : World) :
  let w' := (retryBody env i g w).2 in
  let l := g_taskEvents g in
  (∀ l', l' ≠ l → heap w' l' = heap w l') ∧
  next w' = next w ∧
  ((goroutines w' = <[i := set_pc AtRemoveTaskEvents g]> (goroutines w) ∧
    sending (heap w' l) = false) ∨
   (goroutines w' = <[i := set_pc AtWait g]> (goroutines w) ∧
    sending (heap w' l) = sending (heap w l))).
Proof.
  open_world w. exec.
  destruct (events (hp (g_taskEvents g))) as [|event rest] eqn:Hev; exec.
  - split; [|split; [done|]].
    + intros l' Hne. by rewrite fn_lookup_insert_ne.
    + left. rewrite ?fn_lookup_insert. by exec.
  - drain_cases env event; rewrite ?Hev; exec.
    all: try (destruct rest; exec).
    all: (split; [|split; [done|]]);
      [ intros l' Hne; by rewrite ?fn_lookup_insert_ne
      | first [ by (left; rewrite ?fn_lookup_insert; exec; auto)
              | by (right; rewrite ?fn_lookup_insert; exec; auto) ] ].
Qed.

Lemma step_oneWorkerPerList (TaskStopped : TaskStatus) (w w' : World) (lbl : Label) :
  oneWorkerPerList w → step TaskStopped w lbl = Some w' → oneWorkerPerList w'.
Proof.
  intros Hinv Hstep.
  destruct lbl as [change cl|state| |d|i|i env|i]; unfold step in Hstep.
  - apply (inj Some) in Hstep as <-. by apply AddStateChangeEvent_oneWorkerPerList.
  - destruct (tickerPending w); [|done].
    pose proof (taskStateChangesToSend_frame TaskStopped state w)
      as (Hh & Hhp & Hnx & Hg & _).
    destruct (taskStateChangesToSend TaskStopped state w) as [evs w1].
    apply (inj Some) in Hstep as <-.
    unfold oneWorkerPerList, workers in *. cbn in *. by rewrite Hh, Hhp, Hnx, Hg.
  - destruct (tickerPending w) as [|ev rest]; [done|]. apply (inj Some) in Hstep as <-.
    by apply AddStateChangeEvent_oneWorkerPerList.
  - destruct (0 <=? d)%Z; [|done]. by apply (inj Some) in Hstep as <-.
  - destruct (goroutines w !! i) as [g|] eqn:Hg; [|done].
    destruct (g_pc g) eqn:Hpc; try done.
    unfold Wait in Hstep. destruct (submitSemaphore (handler w)); [done|].
    apply (inj Some) in Hstep as <-.
    unfold oneWorkerPerList, workers in *. cbn -[countIf].
    destruct Hinv as (Hcount & Hfresh & Hreg). split; [|done].
    intros l. rewrite <- Hcount. apply (countIf_insert_same _ _ i g _ Hg).
    unfold worksOn, active. cbn. by rewrite Hpc.
  - destruct (goroutines w !! i) as [g|] eqn:Hg; [|done].
    destruct (g_pc g) eqn:Hpc; try done. apply (inj Some) in Hstep as <-.
    destruct (retryBody_frame env i g w) as (_ & Hte & _).
    destruct (retryBody_queue env i g w) as (Hother & Hnx & Hcase).
    destruct Hinv as (Hcount & Hfresh & Hreg).
    assert (Hact : worksOn (g_taskEvents g) g = true).
    { unfold worksOn, active. by rewrite Hpc, Nat.eqb_refl. }
    assert (Hone : sending (heap w (g_taskEvents g)) = true).
    { specialize (Hcount (g_taskEvents g)). unfold workers in Hcount.
      destruct (sending (heap w (g_taskEvents g))); [done|].
      apply list_elem_of_lookup_2 in Hg.
      assert (g ∈ filter (λ g0, worksOn (g_taskEvents g) g0 = true) (goroutines w))
        as Hin by (by apply list_elem_of_filter).
      unfold countIf in Hcount.
      destruct (filter _ (goroutines w)); [by apply elem_of_nil in Hin | done]. }
    unfold oneWorkerPerList, workers. rewrite Hnx, Hte. split; [|split; [|done]].
    + intros l. destruct (decide (l = g_taskEvents g)) as [->|Hne].
      * specialize (Hcount (g_taskEvents g)). unfold workers in Hcount.
        rewrite Hone in Hcount.
        destruct Hcase as [[-> ->] | [-> ->]].
        -- pose proof (countIf_insert_loss (worksOn (g_taskEvents g)) _ i g
                         (set_pc AtRemoveTaskEvents g) Hg Hact eq_refl). lia.
        -- rewrite Hone, <- Hcount. apply (countIf_insert_same _ _ i g _ Hg).
           rewrite Hact. unfold worksOn, active. cbn. by rewrite Nat.eqb_refl.
      * rewrite (Hother l Hne), <- Hcount. unfold workers.
        assert (Hoff : ∀ pc, worksOn l (set_pc pc g) = worksOn l g).
        { intros pc. unfold worksOn. cbn.
          rewrite (proj2 (Nat.eqb_neq (g_taskEvents g) l)) by done.
          by rewrite !andb_false_r. }
        destruct Hcase as [[-> _] | [-> _]];
          by apply (countIf_insert_same _ _ i g _ Hg).
    + intros l Hl. destruct (decide (l = g_taskEvents g)) as [->|Hne].
      * specialize (Hfresh _ Hl). congruence.
      * rewrite (Hother l Hne). by apply Hfresh.
  - destruct (goroutines w !! i) as [g|] eqn:Hg; [|done].
    destruct (g_pc g) eqn:Hpc; try done. apply (inj Some) in Hstep as <-.
    destruct (deferredBody_frame i g w) as (_ & Hte & _ & _ & Hgs & _ & Hhp & _).
    destruct Hinv as (Hcount & Hfresh & Hreg).
    assert (Hnx : next (deferredBody i g w).2 = next w).
    { clear. open_world w. by exec. }
    unfold oneWorkerPerList, workers. rewrite Hnx, Hte, Hgs, Hhp.
    split; [|split; [done|]].
    + intros l. rewrite <- Hcount. apply (countIf_insert_same _ _ i g _ Hg).
      unfold worksOn, active. cbn. by rewrite Hpc.
    + intros arn l [_ Hl]%lookup_delete_Some. by eapply Hreg.
Qed.

(** X15: in every state the handler reaches, an event list is drained by at
    most one goroutine, and by one exactly when its sending flag is set. *)
Lemma run_oneWorkerPerList (TaskStopped : TaskStatus) (cl : ECSClient) (now : Time)
    (lbls : list Label) (w : World) (l : loc) :
  run TaskStopped (NewTaskHandler cl now) lbls = Some w →
  workers l w ≤ 1 ∧ (workers l w = 1 ↔ sending (heap w l) = true).
Proof.
  intros Hrun.
  assert (Hinv : oneWorkerPerList w).
  { refine (run_invariant TaskStopped oneWorkerPerList _ lbls _ w _ Hrun).
    - intros w1 w2 lbl. apply step_oneWorkerPerList.
    - by repeat split. }
  destruct Hinv as (Hcount & _). rewrite (Hcount l).
  destruct (sending (heap w l)); split; try lia; try done.
Qed.

(** ** Reachable states *)

Lemma AddStateChangeEvent_buffers_wf (change : Event) (cl : ECSClient) (w : World) :
  buffers_wf (handler w) → buffers_wf (handler (AddStateChangeEvent change cl w).2).
Proof.
  unfold buffers_wf. rewrite !nonemptyEntries_lookup.
  open_world w. destruct change as [ty dyn]. destruct ty, dyn; exec; try done.
  - intros [Hc Hm]. split; [|done]. intros k l.
    rewrite lookup_insert. case_decide; [|by apply Hc].
    intros [= <-]. by destruct (default [] (cs !! csc_TaskArn e)).
  - intros [Hc Hm].
    assert (Hc' : ∀ k l, delete (TaskARN e) cs !! k = Some l → l ≠ []).
    { intros k l [_ Hl]%lookup_delete_Some. by eapply Hc. }
    assert (Hm' : ∀ k l, delete (TaskARN e) ms !! k = Some l → l ≠ []).
    { intros k l [_ Hl]%lookup_delete_Some. by eapply Hm. }
    destruct (te !! TaskARN e) as [l|]; exec; [destruct (sending (hp l)); exec|]; done.
  - intros [Hc Hm]. split; [done|]. intros k l.
    rewrite lookup_insert. case_decide; [|by apply Hm].
    intros [= <-]. by destruct (default [] (ms !! masc_TaskArn e)).
Qed.

Lemma step_buffers_wf (TaskStopped : TaskStatus) (w w' : World) (lbl : Label) :
  buffers_wf (handler w) → step TaskStopped w lbl = Some w' → buffers_wf (handler w').
Proof.
  intros Hinv Hstep.
  destruct lbl as [change cl|state| |d|i|i env|i]; unfold step in Hstep.
  - apply (inj Some) in Hstep as <-. by apply AddStateChangeEvent_buffers_wf.
  - destruct (tickerPending w); [|done].
    pose proof (taskStateChangesToSend_frame TaskStopped state w) as (Hh & _).
    destruct (taskStateChangesToSend TaskStopped state w) as [evs w1].
    apply (inj Some) in Hstep as <-. cbn in *. by rewrite Hh.
  - destruct (tickerPending w) as [|ev rest]; [done|]. apply (inj Some) in Hstep as <-.
    by apply AddStateChangeEvent_buffers_wf.
  - destruct (0 <=? d)%Z; [|done]. by apply (inj Some) in Hstep as <-.
  - destruct (goroutines w !! i) as [g|] eqn:Hg; [|done].
    destruct (g_pc g) eqn:Hpc; try done.
    unfold Wait in Hstep. destruct (submitSemaphore (handler w)); [done|].
    by apply (inj Some) in Hstep as <-.
  - destruct (goroutines w !! i) as [g|] eqn:Hg; [|done].
    destruct (g_pc g) eqn:Hpc; try done. apply (inj Some) in Hstep as <-.
    destruct (retryBody_frame env i g w) as (_ & _ & Hc & Hm & _).
    unfold buffers_wf in *. by rewrite Hc, Hm.
  - destruct (goroutines w !! i) as [g|] eqn:Hg; [|done].
    destruct (g_pc g) eqn:Hpc; try done. apply (inj Some) in Hstep as <-.
    destruct (deferredBody_frame i g w) as (_ & _ & Hc & Hm & _).
    unfold buffers_wf in *. by rewrite Hc, Hm.
Qed.

(** X16: in every state the handler reaches, each entry of the two batch
    buffers holds at least one change: no empty entry is ever left behind. *)
Lemma run_buffers_wf (TaskStopped : TaskStatus) (cl : ECSClient) (now : Time)
    (lbls : list Label) (w : World) :
  run TaskStopped (NewTaskHandler cl now) lbls = Some w → buffers_wf (handler w).
Proof.
  intros Hrun.
  refine (run_invariant TaskStopped (λ w, buffers_wf (handler w)) _ lbls _ w _ Hrun).
  - intros w1 w2 lbl. apply step_buffers_wf.
  - split; reflexivity.
Qed.

Lemma permits_bound_witness :
  inflight saturatedWorld = 10 ∧
  submitSemaphore (handler saturatedWorld) = 0 ∧
  step 5%Z saturatedWorld (Acquire 10) = None ∧
  (inflight saturatedWorld ≤ concurrentEventCalls)%nat.
Proof.
  split; [vm_compute; reflexivity|]. split; [vm_compute; reflexivity|].
  split; [vm_compute; reflexivity|].
  apply (permits_bound 5%Z 0 0%Z saturate saturatedWorld).
  vm_compute. reflexivity.
Defined.

(** ** One task, two event lists *)

(** C7: two goroutines in the loop of submitTaskEvents for one task ARN.
    After the calls of [raceSetup] the goroutine started for the second
    change drains the first event list, the goroutine started for the third
    change drains a second list for the same ARN, both lists have the sending
    flag set, and only the second list is registered. *)
Theorem two_goroutines_for_one_task :
  match run 5%Z (NewTaskHandler 0 0%Z) raceSetup with
  | Some w =>
      filter (λ g, active g = true) (goroutines w) =
        [mkGoroutine 0 0 "T" AtWait; mkGoroutine 1 0 "T" AtWait] ∧
      sending (heap w 0) = true ∧ sending (heap w 1) = true ∧
      statusOf <$> events (heap w 0) = [2%Z] ∧
      statusOf <$> events (heap w 1) = [3%Z] ∧
      tasksToEvents (handler w) !! "T" = Some 1
  | None => False
  end.
Proof. vm_compute. repeat split; reflexivity. Qed.

(** C2: submissions for one ARN out of insertion order.  The three task
    changes of [raceSchedule] are handed in with status 1, 2, 3 for task T;
    the remote API receives, and accepts, them in the order 1, 3, 2. *)
Theorem submissions_out_of_insertion_order :
  match run 5%Z (NewTaskHandler 0 0%Z) raceSchedule with
  | Some w =>
      Status <$> handedIn raceSchedule = [1%Z; 2%Z; 3%Z] ∧
      TaskARN <$> handedIn raceSchedule = ["T"; "T"; "T"] ∧
      statusOf <$> submitted (effects w) = [1%Z; 3%Z; 2%Z] ∧
      taskArn <$> submitted (effects w) = ["T"; "T"; "T"]
  | None => False
  end.
Proof. vm_compute. repeat split; reflexivity. Qed.

(** * Further properties *)

(** ** Batching and flushing *)

Lemma AddStateChangeEvent_batch (change : Event) (cl : ECSClient) (w : World) (arn : string) :
  isTaskChange change = false →
  let w' := (AddStateChangeEvent change cl w).2 in
  default [] (tasksToContainerStates (handler w') !! arn) =
    default [] (tasksToContainerStates (handler w) !! arn) ++
      containerChangesFor arn [change] ∧
  default [] (tasksToManagedAgentStates (handler w') !! arn) =
    default [] (tasksToManagedAgentStates (handler w) !! arn) ++
      managedAgentChangesFor arn [change] ∧
  tasksToEvents (handler w') = tasksToEvents (handler w) ∧
  heap w' = heap w ∧ next w' = next w ∧ goroutines w' = goroutines w.
Proof.
  intros Hnt. open_world w. destruct change as [ty dyn].
  unfold containerChangesFor, managedAgentChangesFor, isTaskChange in *.
  destruct ty, dyn; exec; cbn; rewrite ?app_nil_r; try done.
  - repeat split; auto. rewrite lookup_insert.
    destruct (decide (csc_TaskArn e = arn)) as [->|Hne]; cbn;
      by rewrite ?app_nil_r.
  - repeat split; auto. rewrite lookup_insert.
    destruct (decide (masc_TaskArn e = arn)) as [->|Hne]; cbn;
      by rewrite ?app_nil_r.
Qed.

Lemma containerChangesFor_cons (arn : string) (change : Event) (changes : list Event) :
  containerChangesFor arn (change :: changes) =
    containerChangesFor arn [change] ++ containerChangesFor arn changes.
Proof.
  unfold containerChangesFor. cbn.
  destruct (GetEventType change), (asContainerStateChange change); try done.
  by case_decide.
Qed.

Lemma managedAgentChangesFor_cons (arn : string) (change : Event) (changes : list Event) :
  managedAgentChangesFor arn (change :: changes) =
    managedAgentChangesFor arn [change] ++ managedAgentChangesFor arn changes.
Proof.
  unfold managedAgentChangesFor. cbn.
  destruct (GetEventType change), (asManagedAgentStateChange change); try done.
  by case_decide.
Qed.

(** What the flush of a task change enqueues and removes. *)
Lemma AddStateChangeEvent_flush (event : TaskStateChange) (cl : ECSClient) (w : World) :
  let arn := TaskARN event in
  let w' := (AddStateChangeEvent (taskEventOf event) cl w).2 in
  tasksToContainerStates (handler w') = delete arn (tasksToContainerStates (handler w)) ∧
  tasksToManagedAgentStates (handler w') =
    delete arn (tasksToManagedAgentStates (handler w)) ∧
  ∃ l e, tasksToEvents (handler w') !! arn = Some l ∧
         last (events (heap w' l)) = Some (TaskChange e) ∧
         TaskARN e = arn ∧ Status e = Status event ∧
         Containers e = Containers event ++
           default [] (tasksToContainerStates (handler w) !! arn) ∧
         ManagedAgents e = ManagedAgents event ++
           default [] (tasksToManagedAgentStates (handler w) !! arn).
Proof.
  open_world w. exec.
  destruct (te !! TaskARN event) as [l|] eqn:Hl; exec.
  - destruct (sending (hp l)) eqn:Hs; exec.
    all: repeat split; auto.
    all: exists l; eexists; rewrite ?fn_lookup_insert; exec;
         rewrite Hl, last_snoc; repeat split; reflexivity.
  - repeat split; auto.
    exists nx. eexists. rewrite ?fn_lookup_insert. exec.
    rewrite lookup_insert_eq. repeat split; reflexivity.
Qed.

(** X1: container and managed agent changes handed to AddStateChangeEvent are
    only buffered: each is appended to the buffer of its own task, in the
    order handed in, and the event lists, the goroutines and the remote
    effects stay as they were.  The next task change of a task takes that
    task's two buffers with it: its Containers and ManagedAgents are its own
    followed by what was buffered, it is the last event of the task's list,
    and both buffer entries of the task are deleted. *)
Theorem batched_changes_reach_the_next_task_change
    (TaskStopped : TaskStatus) (changes : list Event) (event : TaskStateChange)
    (cl : ECSClient) (w : World) :
  Forall (λ change, isTaskChange change = false) changes →
  ∃ w1 w2,
    run TaskStopped w (map (λ change, Submit change cl) changes) = Some w1 ∧
    step TaskStopped w1 (Submit (taskEventOf event) cl) = Some w2 ∧
    (∀ arn,
       default [] (tasksToContainerStates (handler w1) !! arn) =
         default [] (tasksToContainerStates (handler w) !! arn) ++
           containerChangesFor arn changes ∧
       default [] (tasksToManagedAgentStates (handler w1) !! arn) =
         default [] (tasksToManagedAgentStates (handler w) !! arn) ++
           managedAgentChangesFor arn changes) ∧
    tasksToEvents (handler w1) = tasksToEvents (handler w) ∧
    heap w1 = heap w ∧ goroutines w1 = goroutines w ∧ effects w1 = effects w ∧
    tasksToContainerStates (handler w2) !! TaskARN event = None ∧
    tasksToManagedAgentStates (handler w2) !! TaskARN event = None ∧
    ∃ l e, tasksToEvents (handler w2) !! TaskARN event = Some l ∧
           last (events (heap w2 l)) = Some (TaskChange e) ∧
           Containers e = Containers event ++
             default [] (tasksToContainerStates (handler w) !! TaskARN event) ++
             containerChangesFor (TaskARN event) changes ∧
           ManagedAgents e = ManagedAgents event ++
             default [] (tasksToManagedAgentStates (handler w) !! TaskARN event) ++
             managedAgentChangesFor (TaskARN event) changes.
Proof.
  intros Hall.
  assert (Hbatch : ∃ w1,
    run TaskStopped w (map (λ change, Submit change cl) changes) = Some w1 ∧
    (∀ arn,
       default [] (tasksToContainerStates (handler w1) !! arn) =
         default [] (tasksToContainerStates (handler w) !! arn) ++
           containerChangesFor arn changes ∧
       default [] (tasksToManagedAgentStates (handler w1) !! arn) =
         default [] (tasksToManagedAgentStates (handler w) !! arn) ++
           managedAgentChangesFor arn changes) ∧
    tasksToEvents (handler w1) = tasksToEvents (handler w) ∧
    heap w1 = heap w ∧ goroutines w1 = goroutines w ∧ effects w1 = effects w).
  { clear event. revert w. induction Hall as [|change changes Hc _ IH]; intros w.
    - exists w. cbn. repeat split; auto; by rewrite app_nil_r.
    - destruct (IH (AddStateChangeEvent change cl w).2)
        as (w1 & Hrun & Hbuf & Hte & Hhp & Hgs & Hes).
      exists w1. split; [exact Hrun|].
      destruct (AddStateChangeEvent_frame change cl w) as (_ & _ & _ & Hes' & _).
      split; [|split; [|split; [|split]]].
      + intros arn. destruct (Hbuf arn) as [-> ->].
        destruct (AddStateChangeEvent_batch change cl w arn Hc) as (-> & -> & _).
        rewrite (containerChangesFor_cons arn change changes),
          (managedAgentChangesFor_cons arn change changes).
        split; symmetry; apply app_assoc.
      + rewrite Hte. by destruct (AddStateChangeEvent_batch change cl w "" Hc) as (_ & _ & -> & _).
      + rewrite Hhp. by destruct (AddStateChangeEvent_batch change cl w "" Hc) as (_ & _ & _ & -> & _).
      + rewrite Hgs. by destruct (AddStateChangeEvent_batch change cl w "" Hc) as (_ & _ & _ & _ & _ & ->).
      + by rewrite Hes. }
  destruct Hbatch as (w1 & Hrun & Hbuf & Hte & Hhp & Hgs & Hes).
  exists w1, (AddStateChangeEvent (taskEventOf event) cl w1).2.
  split; [exact Hrun|]. split; [reflexivity|].
  repeat (split; [assumption|]).
  destruct (AddStateChangeEvent_flush event cl w1) as (Hc & Hm & l & e & Hl & Hlast & _ & _ & Hce & Hme).
  split; [rewrite Hc; apply lookup_delete_eq|].
  split; [rewrite Hm; apply lookup_delete_eq|].
  exists l, e. split; [exact Hl|]. split; [exact Hlast|].
  destruct (Hbuf (TaskARN event)) as [Hb1 Hb2].
  rewrite Hce, Hme, Hb1, Hb2. done.
Qed.


(** ** The registry of event lists *)

(** X2: getTaskEventsUnsafe returns the list registered for the event's task
    ARN, and when none is registered it allocates a fresh empty list, not
    sending, created at the current time, and registers it.  Other ARNs,
    other lists, the buffers, the goroutines and the effects are untouched,
    and asking again returns the same list without changing anything. *)
Theorem getTaskEventsUnsafe_finds_or_creates (event : sendableEvent) (w : World) :
  let arn := taskArn event in
  let '(l, w1) := getTaskEventsUnsafe event w in
  tasksToEvents (handler w1) !! arn = Some l ∧
  (∀ arn', arn' ≠ arn →
     tasksToEvents (handler w1) !! arn' = tasksToEvents (handler w) !! arn') ∧
  (∀ l', l' ≠ l → heap w1 l' = heap w l') ∧
  match tasksToEvents (handler w) !! arn with
  | Some l0 => l = l0 ∧ heap w1 = heap w ∧ next w1 = next w ∧ handler w1 = handler w
  | None =>
      l = next w ∧ next w1 = S (next w) ∧
      heap w1 l = mkTaskSendableEvents [] false (clock w) arn
  end ∧
  tasksToContainerStates (handler w1) = tasksToContainerStates (handler w) ∧
  tasksToManagedAgentStates (handler w1) = tasksToManagedAgentStates (handler w) ∧
  goroutines w1 = goroutines w ∧ effects w1 = effects w ∧
  let '(l2, w2) := getTaskEventsUnsafe event w1 in
  l2 = l ∧ handler w2 = handler w1 ∧ heap w2 = heap w1 ∧ next w2 = next w1.
Proof.
  open_world w. exec.
  destruct (te !! taskArn event) as [l|] eqn:Hl; exec.
  - rewrite Hl. by repeat split.
  - rewrite lookup_insert_eq. repeat split; auto.
    + intros arn' Hne. by rewrite lookup_insert_ne.
    + intros l' Hne. by rewrite fn_lookup_insert_ne.
Qed.

(** X3: removeTaskEvents deletes the registry entry of the task ARN and
    nothing else: the list itself stays in the store.  The next
    getTaskEventsUnsafe for that ARN therefore allocates a second, empty list
    at another location and leaves the old one as it was. *)
Theorem removeTaskEvents_then_new_list (event : sendableEvent) (w : World) (l : loc) :
  tasksToEvents (handler w) !! taskArn event = Some l →
  l < next w →
  let w1 := (removeTaskEvents (taskArn event) w).2 in
  let '(l', w2) := getTaskEventsUnsafe event w1 in
  tasksToEvents (handler w1) !! taskArn event = None ∧
  (∀ arn', arn' ≠ taskArn event →
     tasksToEvents (handler w1) !! arn' = tasksToEvents (handler w) !! arn') ∧
  heap w1 = heap w ∧
  tasksToContainerStates (handler w1) = tasksToContainerStates (handler w) ∧
  tasksToManagedAgentStates (handler w1) = tasksToManagedAgentStates (handler w) ∧
  goroutines w1 = goroutines w ∧
  l' ≠ l ∧
  heap w2 l = heap w l ∧
  events (heap w2 l') = [] ∧ sending (heap w2 l') = false ∧
  tasksToEvents (handler w2) !! taskArn event = Some l'.
Proof.
  intros Hl Hlt. open_world w. exec.
  rewrite lookup_delete_eq. exec. rewrite lookup_insert_eq.
  repeat split; auto.
  - intros arn' Hne. by rewrite lookup_delete_ne.
  - lia.
  - rewrite fn_lookup_insert_ne by lia. done.
Qed.

(** ** What AddStateChangeEvent does not do *)

(** X4: AddStateChangeEvent never calls the remote API and never takes a
    permit of the submit semaphore itself.  It starts at most one goroutine,
    only for a task change, positioned before Wait on the list registered for
    that task, whose sending flag is then set; goroutines already running are
    not touched. *)
Theorem AddStateChangeEvent_is_asynchronous (change : Event) (cl : ECSClient) (w : World) :
  let w' := (AddStateChangeEvent change cl w).2 in
  effects w' = effects w ∧
  submitSemaphore (handler w') = submitSemaphore (handler w) ∧
  tickerPending w' = tickerPending w ∧
  (goroutines w' = goroutines w ∨
   ∃ event l, isTaskChange change = true ∧
              asTaskStateChange change = Some event ∧
              tasksToEvents (handler w') !! TaskARN event = Some l ∧
              sending (heap w' l) = true ∧
              goroutines w' = goroutines w ++ [mkGoroutine l cl (TaskARN event) AtWait]) ∧
  ∀ i g, goroutines w !! i = Some g → goroutines w' !! i = Some g.
Proof.
  open_world w. destruct change as [ty dyn]. unfold isTaskChange.
  destruct ty, dyn; exec; try (by repeat split; auto).
  destruct (te !! TaskARN e) as [l|] eqn:Hl; exec.
  - destruct (sending (hp l)) eqn:Hs; exec; [by repeat split; auto|].
    repeat split; auto.
    + right. exists e, l. rewrite ?fn_lookup_insert. by exec.
    + intros i g Hi. by apply lookup_app_l_Some.
  - repeat split; auto.
    + right. exists e, nx. rewrite lookup_insert_eq, ?fn_lookup_insert. by exec.
    + intros i g Hi. by apply lookup_app_l_Some.
Qed.

(** ** Locks *)

Ltac solve_locks :=
  rewrite <- ?app_assoc; eexists; split; [reflexivity|];
  cbn; rewrite ?Nat.eqb_refl; cbn; by rewrite ?Nat.eqb_refl.

(** X5: each operation of the handler releases every lock it takes, unlocks
    only what it holds, and takes the handler's lock only when it holds no
    event list's lock (a list's lock may be taken under the handler's lock,
    never the other way round), whatever the state and the inputs. *)
Theorem operations_respect_the_locks (w : World) :
  (∀ change cl, ∃ acts,
     trace (AddStateChangeEvent change cl w).2 = trace w ++ acts ∧
     disciplined [] acts && lockOrdered [] acts = true) ∧
  (∀ env l, ∃ acts,
     trace (submitFirstEvent env l w).2 = trace w ++ acts ∧
     disciplined [] acts && lockOrdered [] acts = true) ∧
  (∀ arn, ∃ acts,
     trace (removeTaskEvents arn w).2 = trace w ++ acts ∧
     disciplined [] acts && lockOrdered [] acts = true) ∧
  (∀ TaskStopped state, ∃ acts,
     trace (taskStateChangesToSend TaskStopped state w).2 = trace w ++ acts ∧
     disciplined [] acts && lockOrdered [] acts = true).
Proof.
  open_world w. repeat split.
  - intros [ty dyn] cl. destruct ty, dyn; exec; try solve_locks.
    destruct (te !! TaskARN e) as [l|]; exec;
      [destruct (sending (hp l)); exec|]; solve_locks.
  - intros env l. exec.
    destruct (events (hp l)) as [|event rest] eqn:Hev; exec; [solve_locks|].
    drain_cases env event; rewrite ?Hev; exec.
    all: try (destruct rest; exec).
    all: solve_locks.
  - intros arn. exec. solve_locks.
  - intros TaskStopped state. exec. solve_locks.
Qed.


(** ** Event lists are per task *)

Lemma AddStateChangeEvent_task_shape (event : TaskStateChange) (cl : ECSClient) (w : World) :
  let arn := TaskARN event in
  let w' := (AddStateChangeEvent (taskEventOf event) cl w).2 in
  ∃ l e,
    TaskARN e = arn ∧
    (∀ l', l' ≠ l → heap w' l' = heap w l') ∧
    (goroutines w' = goroutines w ∨
     goroutines w' = goroutines w ++ [mkGoroutine l cl arn AtWait]) ∧
    ((tasksToEvents (handler w) !! arn = Some l ∧
      next w' = next w ∧
      tasksToEvents (handler w') = tasksToEvents (handler w) ∧
      taskARN (heap w' l) = taskARN (heap w l) ∧
      events (heap w' l) = events (heap w l) ++ [TaskChange e]) ∨
     (tasksToEvents (handler w) !! arn = None ∧
      l = next w ∧ next w' = S (next w) ∧
      tasksToEvents (handler w') = <[arn := l]> (tasksToEvents (handler w)) ∧
      taskARN (heap w' l) = arn ∧
      events (heap w' l) = [TaskChange e])).
Proof.
  open_world w. exec.
  destruct (te !! TaskARN event) as [l|] eqn:Hl; exec.
  - exists l. eexists. split; [|split; [|split]]; cycle 1.
    + intros l' Hne. destruct (sending (hp l)); exec; by rewrite ?fn_lookup_insert_ne.
    + destruct (sending (hp l)); exec; auto.
    + left. destruct (sending (hp l)); exec; rewrite ?fn_lookup_insert; exec;
        repeat split; reflexivity.
    + reflexivity.
  - exists nx. eexists. split; [|split; [|split]]; cycle 1.
    + intros l' Hne. by rewrite ?fn_lookup_insert_ne.
    + auto.
    + right. rewrite ?fn_lookup_insert. exec. repeat split; reflexivity.
    + reflexivity.
Qed.

Lemma AddStateChangeEvent_other_shape (change : Event) (cl : ECSClient) (w : World) :
  isTaskChange change = false →
  let w' := (AddStateChangeEvent change cl w).2 in
  tasksToEvents (handler w') = tasksToEvents (handler w) ∧
  heap w' = heap w ∧ next w' = next w ∧ goroutines w' = goroutines w.
Proof.
  intros H. by destruct (AddStateChangeEvent_batch change cl w "" H) as (_ & _ & ? & ? & ? & ?).
Qed.

Lemma isTaskChange_true (change : Event) :
  isTaskChange change = true → ∃ event, change = taskEventOf event.
Proof.
  destruct change as [ty dyn]. unfold isTaskChange, asTaskStateChange, taskEventOf. cbn.
  destruct ty, dyn; try done. intros _. by eexists.
Qed.

Lemma AddStateChangeEvent_sharded (change : Event) (cl : ECSClient) (w : World) :
  sharded w → sharded (AddStateChangeEvent change cl w).2.
Proof.
  intros (Hev & Hreg & Hgs).
  destruct (isTaskChange change) eqn:Htask.
  - apply isTaskChange_true in Htask as [event ->].
    destruct (AddStateChangeEvent_task_shape event cl w)
      as (l & e & He & Hother & Hgo & Hcase).
    set (w' := (AddStateChangeEvent (taskEventOf event) cl w).2) in *.
    assert (Hnext : next w ≤ next w') by (destruct Hcase as [(_&->&_)|(_&_&->&_)]; lia).
    assert (Hl : l < next w' ∧ taskARN (heap w' l) = TaskARN event ∧
                 Forall (λ e0, taskArn e0 = taskARN (heap w' l)) (events (heap w' l)) ∧
                 (∀ l0, l0 < next w → l0 ≠ l ∨ taskARN (heap w' l0) = taskARN (heap w l0))).
    { destruct Hcase as [(Hl & Hnx & _ & Harn & Hevs)|(Hl & -> & Hnx & _ & Harn & Hevs)].
      - destruct (Hreg _ _ Hl) as [Hlt Ht]. rewrite Hnx, Harn, Hevs, Ht.
        split; [done|]. split; [done|]. split.
        + apply Forall_app. split; [rewrite <- Ht; by apply Hev|].
          repeat constructor. exact He.
        + intros l0 _. destruct (decide (l0 = l)) as [->|]; auto.
      - rewrite Hnx, Harn, Hevs. split; [lia|]. split; [done|]. split.
        + repeat constructor. exact He.
        + intros l0 Hl0. left. lia. }
    destruct Hl as (Hlt & Harn & Hevl & Hkeep).
    assert (Harn' : ∀ l0, l0 < next w → taskARN (heap w' l0) = taskARN (heap w l0)).
    { intros l0 Hl0. destruct (decide (l0 = l)) as [->|Hne].
      - by destruct (Hkeep l Hl0).
      - by rewrite Hother. }
    split; [|split].
    + intros l0 Hl0. destruct (decide (l0 = l)) as [->|Hne]; [done|].
      rewrite (Hother l0 Hne). apply Hev.
      destruct Hcase as [(_&Hn&_)|(_&->&Hn&_)]; rewrite Hn in Hl0; lia.
    + intros arn l0 Harn0.
      destruct Hcase as [(Hl & Hnx & Hte & _)|(Hl & -> & Hnx & Hte & _)].
      * rewrite Hte in Harn0. destruct (Hreg _ _ Harn0) as [Hlt0 Ht0].
        split; [lia|]. by rewrite Harn'.
      * rewrite Hte in Harn0. apply lookup_insert_Some in Harn0 as [[<- <-]|[Hne Harn0]].
        -- done.
        -- destruct (Hreg _ _ Harn0) as [Hlt0 Ht0]. split; [lia|]. by rewrite Harn'.
    + assert (Hold : Forall (λ g, g_taskEvents g < next w' ∧
                 taskARN (heap w' (g_taskEvents g)) = g_taskARN g) (goroutines w)).
      { eapply Forall_impl; [exact Hgs|]. intros g [Hg1 Hg2]. split; [lia|].
        by rewrite Harn'. }
      destruct Hgo as [-> | ->]; [done|].
      apply Forall_app. split; [done|]. repeat constructor; done.
  - destruct (AddStateChangeEvent_other_shape change cl w Htask) as (Hte & Hhp & Hnx & Hg).
    unfold sharded. by rewrite Hte, Hhp, Hnx, Hg.
Qed.

(** A drain step on a list: the list shrinks by at most its head, and no
    list changes its ARN. *)
Lemma retryBody_shape (env : Env) (i : nat) (g : Goroutine) (w : World) :
  let w' := (retryBody env i g w).2 in
  let l := g_taskEvents g in
  (∀ l', taskARN (heap w' l') = taskARN (heap w l')) ∧
  (∀ l', l' ≠ l → events (heap w' l') = events (heap w l')) ∧
  (events (heap w' l) = events (heap w l) ∨
   events (heap w' l) = tail (events (heap w l))) ∧
  next w' = next w.
Proof.
  open_world w. exec.
  assert (Hins : ∀ (f : taskSendableEvents → taskSendableEvents) l',
            (∀ q, taskARN (f q) = taskARN q) →
            taskARN (<[g_taskEvents g := f (hp (g_taskEvents g))]> hp l') = taskARN (hp l')).
  { intros f l' Hf. destruct (decide (l' = g_taskEvents g)) as [->|Hne].
    - by rewrite fn_lookup_insert, Hf.
    - by rewrite fn_lookup_insert_ne. }
  destruct (events (hp (g_taskEvents g))) as [|event rest] eqn:Hev; exec.
  - split; [|split; [|split]]; [ | | |done].
    + intros l'. by apply (Hins (set_sending false)).
    + intros l' Hne. by rewrite fn_lookup_insert_ne.
    + left. rewrite ?fn_lookup_insert. by exec.
  - drain_cases env event; rewrite ?Hev; exec.
    all: try (destruct rest; exec).
    all: (split; [|split; [|split]]); auto.
    all: try (intros l'; destruct (decide (l' = g_taskEvents g)) as [->|Hne];
              rewrite ?fn_lookup_insert, ?fn_lookup_insert_ne by done; by exec).
    all: try (intros l' Hne; by rewrite ?fn_lookup_insert_ne).
    all: try (rewrite ?fn_lookup_insert; exec; rewrite ?Hev; by auto).
Qed.

Lemma Forall_tail {A} (P : A → Prop) (l : list A) : Forall P l → Forall P (tail l).
Proof. intros H. destruct H; [constructor | done]. Qed.

Lemma step_sharded (TaskStopped : TaskStatus) (w w' : World) (lbl : Label) :
  sharded w → step TaskStopped w lbl = Some w' → sharded w'.
Proof.
  intros Hinv Hstep.
  destruct lbl as [change cl|state| |d|i|i env|i]; unfold step in Hstep.
  - apply (inj Some) in Hstep as <-. by apply AddStateChangeEvent_sharded.
  - destruct (tickerPending w); [|done].
    pose proof (taskStateChangesToSend_frame TaskStopped state w)
      as (Hh & Hhp & Hnx & Hg & _).
    destruct (taskStateChangesToSend TaskStopped state w) as [evs w1].
    apply (inj Some) in Hstep as <-.
    unfold sharded in *. cbn in *. by rewrite Hh, Hhp, Hnx, Hg.
  - destruct (tickerPending w) as [|ev rest]; [done|]. apply (inj Some) in Hstep as <-.
    by apply AddStateChangeEvent_sharded.
  - destruct (0 <=? d)%Z; [|done]. by apply (inj Some) in Hstep as <-.
  - destruct (goroutines w !! i) as [g|] eqn:Hg; [|done].
    destruct (g_pc g) eqn:Hpc; try done.
    unfold Wait in Hstep. destruct (submitSemaphore (handler w)); [done|].
    apply (inj Some) in Hstep as <-.
    destruct Hinv as (Hev & Hreg & Hgs). unfold sharded. cbn.
    split; [done|]. split; [done|].
    apply Forall_insert; [done|]. cbn.
    by apply (Forall_lookup_1 _ _ _ _ Hgs Hg).
  - destruct (goroutines w !! i) as [g|] eqn:Hg; [|done].
    destruct (g_pc g) eqn:Hpc; try done. apply (inj Some) in Hstep as <-.
    destruct (retryBody_frame env i g w) as (_ & Hte & _ & _ & _ & pc & _ & Hgs').
    destruct (retryBody_shape env i g w) as (Harn & Hother & Hown & Hnx).
    destruct Hinv as (Hev & Hreg & Hgs). unfold sharded.
    rewrite Hnx, Hte, Hgs'. split; [|split].
    + intros l Hl. rewrite Harn. destruct (decide (l = g_taskEvents g)) as [->|Hne].
      * destruct Hown as [-> | ->]; [by apply Hev|]. apply Forall_tail. by apply Hev.
      * rewrite (Hother l Hne). by apply Hev.
    + intros arn l Hl. rewrite Harn. by apply Hreg.
    + apply Forall_insert.
      * eapply Forall_impl; [exact Hgs|]. intros g0 [? ?]. by rewrite Harn.
      * cbn. rewrite Harn. by apply (Forall_lookup_1 _ _ _ _ Hgs Hg).
  - destruct (goroutines w !! i) as [g|] eqn:Hg; [|done].
    destruct (g_pc g) eqn:Hpc; try done. apply (inj Some) in Hstep as <-.
    destruct (deferredBody_frame i g w) as (_ & Hte & _ & _ & Hgs' & _ & Hhp & _).
    assert (Hnx : next (deferredBody i g w).2 = next w).
    { clear. open_world w. by exec. }
    destruct Hinv as (Hev & Hreg & Hgs). unfold sharded.
    rewrite Hnx, Hte, Hgs', Hhp. split; [done|]. split.
    + intros arn l [_ Hl]%lookup_delete_Some. by apply Hreg.
    + apply Forall_insert; [done|]. cbn. by apply (Forall_lookup_1 _ _ _ _ Hgs Hg).
Qed.

(** X6: in every state the handler reaches, an event list holds only events
    of the task it was created for: every event of the list registered for an
    ARN has that ARN, every event of the list a goroutine drains has the
    goroutine's ARN, and every registered location is allocated and carries
    its ARN. *)
Theorem event_lists_are_per_task (TaskStopped : TaskStatus) (cl : ECSClient) (now : Time)
    (lbls : list Label) (w : World) :
  run TaskStopped (NewTaskHandler cl now) lbls = Some w →
  (∀ arn l e, tasksToEvents (handler w) !! arn = Some l →
              e ∈ events (heap w l) → taskArn e = arn) ∧
  (∀ g e, g ∈ goroutines w → e ∈ events (heap w (g_taskEvents g)) →
          taskArn e = g_taskARN g) ∧
  (∀ arn l, tasksToEvents (handler w) !! arn = Some l →
            l < next w ∧ taskARN (heap w l) = arn).
Proof.
  intros Hrun.
  assert (Hinv : sharded w).
  { refine (run_invariant TaskStopped sharded _ lbls _ w _ Hrun).
    - intros w1 w2 lbl. apply step_sharded.
    - split; [|split].
      + intros l Hl. cbn in Hl. lia.
      + intros arn l Hl. cbn in Hl. by rewrite lookup_empty in Hl.
      + constructor. }
  destruct Hinv as (Hev & Hreg & Hgs). split; [|split].
  - intros arn l e Hl He. destruct (Hreg _ _ Hl) as [Hlt <-].
    by apply (proj1 (Forall_forall _ _) (Hev l Hlt)).
  - intros g e Hg He.
    destruct (proj1 (Forall_forall _ _) Hgs g Hg) as [Hlt <-].
    by apply (proj1 (Forall_forall _ _) (Hev _ Hlt)).
  - exact Hreg.
Qed.


(** ** The drain step *)

Lemma retryBody_exit (env : Env) (i : nat) (g : Goroutine) (w : World) :
  let w' := (retryBody env i g w).2 in
  let l := g_taskEvents g in
  submitSemaphore (handler w') = S (submitSemaphore (handler w)) ∧
  ((goroutines w' = <[i := set_pc AtRemoveTaskEvents g]> (goroutines w) ∧
    events (heap w' l) = [] ∧ sending (heap w' l) = false) ∨
   (goroutines w' = <[i := set_pc AtWait g]> (goroutines w) ∧
    sending (heap w' l) = sending (heap w l))).
Proof.
  open_world w. exec.
  destruct (events (hp (g_taskEvents g))) as [|event rest] eqn:Hev; exec.
  - split; [done|]. left. by rewrite Hev.
  - drain_cases env event; rewrite ?Hev; exec.
    all: try (destruct rest; exec).
    all: split; [done|].
    all: first [ by (left; rewrite ?fn_lookup_insert; exec; rewrite ?Hev; auto)
               | by (right; rewrite ?fn_lookup_insert; exec; auto) ].
Qed.

(** X7: one turn of the loop of submitTaskEvents past Wait.  The goroutine is
    at submitFirstEvent, the permit taken by Wait is given back in every
    case, and then the goroutine either leaves the loop, with its list empty
    and the sending flag clear, or goes back to Wait with the flag as it was.
    No other goroutine moves. *)
Theorem drain_step_outcome (TaskStopped : TaskStatus) (w w' : World) (i : nat)
    (env : Env) (g : Goroutine) :
  goroutines w !! i = Some g →
  step TaskStopped w (Drain i env) = Some w' →
  let l := g_taskEvents g in
  g_pc g = AtSubmitFirstEvent ∧
  submitSemaphore (handler w') = S (submitSemaphore (handler w)) ∧
  ((goroutines w' !! i = Some (set_pc AtRemoveTaskEvents g) ∧
    events (heap w' l) = [] ∧ sending (heap w' l) = false) ∨
   (goroutines w' !! i = Some (set_pc AtWait g) ∧
    sending (heap w' l) = sending (heap w l))) ∧
  ∀ j, j ≠ i → goroutines w' !! j = goroutines w !! j.
Proof.
  intros Hg Hstep. unfold step in Hstep. rewrite Hg in Hstep.
  destruct (g_pc g) eqn:Hpc; try done. apply (inj Some) in Hstep as <-.
  destruct (retryBody_exit env i g w) as (Hsem & Hcase).
  apply lookup_lt_Some in Hg as Hlt.
  split; [done|]. split; [done|]. split.
  - destruct Hcase as [(-> & ? & ?)|(-> & ?)]; [left|right];
      rewrite list_lookup_insert_eq by done; auto.
  - intros j Hne. destruct Hcase as [(-> & _)|(-> & _)];
      by rewrite list_lookup_insert_ne.
Qed.

(** X8: submitFirstEvent works on the front of its own list only.  The
    handler, the goroutines and every other list stay as they were; the list
    afterwards holds the same events or has lost its first; and the step adds
    at most two effects, a remote call and a sent marker, both for the event
    that was at the front. *)
Theorem drain_step_is_local (env : Env) (l : loc) (w : World) :
  let w' := (submitFirstEvent env l w).2 in
  handler w' = handler w ∧
  goroutines w' = goroutines w ∧
  tickerPending w' = tickerPending w ∧
  next w' = next w ∧
  (∀ l', l' ≠ l → heap w' l' = heap w l') ∧
  taskARN (heap w' l) = taskARN (heap w l) ∧
  createdAt (heap w' l) = createdAt (heap w l) ∧
  (events (heap w' l) = events (heap w l) ∨
   events (heap w' l) = tail (events (heap w l))) ∧
  ∃ es, effects w' = effects w ++ es ∧
        length es ≤ 2 ∧
        ∀ eff, eff ∈ es →
          ∃ event, head (events (heap w l)) = Some event ∧
                   ((∃ api ty res, eff = RemoteCall api ty event res) ∨
                    (∃ m, eff = SentMarker m event)).
Proof.
  open_world w. exec.
  destruct (events (hp l)) as [|event rest] eqn:Hev; exec.
  - rewrite Hev. repeat split; auto.
    + intros l' Hne. by rewrite fn_lookup_insert_ne.
    + exists []. rewrite app_nil_r. repeat split; [cbn; lia|].
      intros eff Hin. by apply elem_of_nil in Hin.
  - drain_cases env event; rewrite ?Hev; exec.
    all: try (destruct rest; exec; rewrite ?Hev; exec).
    all: repeat split; auto.
    all: try (intros l' Hne; by rewrite ?fn_lookup_insert_ne).
    all: rewrite <- ?app_assoc;
      first [ (eexists; split; [reflexivity|])
            | (exists []; split; [by rewrite app_nil_r|]) ].
    all: (split; [cbn; lia|]).
    all: intros eff Hin; exists event; split; [done|].
    all: repeat (apply elem_of_cons in Hin as [->|Hin];
                 [first [ by (left; eauto) | by (right; eauto) ]|]).
    all: by apply elem_of_nil in Hin.
Qed.

(** X9: when the remote API fails with an error other than the invalid
    parameter exception, whichever predicate selected the path,
    submitFirstEvent returns done false with that error, makes one remote
    call, writes no marker, and leaves the list as it was with the event in
    front, so the loop submits it again. *)
Theorem other_errors_keep_the_event (env : Env) (l : loc) (w : World)
    (event : sendableEvent) (rest : list sendableEvent) (err : error) :
  events (heap w l) = event :: rest →
  containerShouldBeSent env event || taskShouldBeSent env event
    || taskAttachmentShouldBeSent env event = true →
  (∀ api, submitStateChange env api event = Some err) →
  IsAWSErrorCodeEqual err ErrCodeInvalidParameterException = false →
  let '(r, w') := submitFirstEvent env l w in
  r = (false, Some err) ∧
  heap w' l = heap w l ∧
  ∃ api ty, effects w' = effects w ++ [RemoteCall api ty event (Some err)].
Proof.
  intros Hev Hpred Hsub Hcode. open_world w. exec. rewrite Hev. exec.
  destruct (containerShouldBeSent env event); [|destruct (taskShouldBeSent env event);
    [|destruct (taskAttachmentShouldBeSent env event); [|done]]]; exec.
  all: rewrite Hsub; exec; rewrite ?Hcode; exec.
  all: repeat split; auto; by eauto.
Qed.

(** ** The ticker *)

Lemma taskStateChangesToSend_arns (TaskStopped : TaskStatus) (state : TaskEngineState)
    (w : World) (arn : string) :
  arn ∈ TaskARN <$> (taskStateChangesToSend TaskStopped state w).1 ↔
  (is_Some (tasksToContainerStates (handler w) !! arn) ∨
   is_Some (tasksToManagedAgentStates (handler w) !! arn)) ∧
  is_Some (eligible TaskStopped state arn).
Proof.
  open_world w. exec.
  set (events := synthesize TaskStopped state (keysOf cs) (keysOf ms)).
  assert (Hlook : ∀ k ev, events !! k = Some ev ↔
            (is_Some (cs !! k) ∨ is_Some (ms !! k)) ∧
            eligible TaskStopped state k = Some ev).
  { intros k ev. unfold events. rewrite synthesize_lookup.
    destruct (decide (k ∈ keysOf cs ∨ k ∈ keysOf ms)) as [Hin|Hin];
      rewrite !elem_of_keysOf in Hin; [tauto|].
    split; [done | tauto]. }
  assert (Hkey : ∀ k ev, events !! k = Some ev → TaskARN ev = k).
  { intros k ev [_ He]%Hlook. apply eligible_Some in He as (t & _ & _ & ->).
    apply syntheticEvent_fields. }
  rewrite list_elem_of_fmap. split.
  - intros (ev & -> & Hin). apply list_elem_of_fmap in Hin as [[k v] [-> Hin]].
    apply elem_of_map_to_list in Hin. cbn. rewrite (Hkey _ _ Hin).
    apply Hlook in Hin as [? ?]. split; [done|]. by eexists.
  - intros [Hbuf [ev He]]. exists ev.
    assert (Hin : events !! arn = Some ev) by (by apply Hlook).
    split; [by rewrite (Hkey _ _ Hin)|].
    apply list_elem_of_fmap. exists (arn, ev). split; [done|].
    by apply elem_of_map_to_list.
Qed.

Lemma foldl_delete_lookup {V} (arns : list string) (m : gmap string V) (arn : string) :
  foldl (λ m k, delete k m) m arns !! arn =
    if decide (arn ∈ arns) then None else m !! arn.
Proof.
  revert m. induction arns as [|k arns IH]; intros m; cbn [foldl].
  - rewrite decide_False; [done | apply not_elem_of_nil].
  - rewrite IH. destruct (decide (arn ∈ arns)) as [Hin|Hin].
    + rewrite (decide_True (P := arn ∈ k :: arns)) by (apply elem_of_cons; auto). done.
    + destruct (decide (k = arn)) as [->|Hne].
      * rewrite (decide_True (P := arn ∈ arn :: arns)) by (apply elem_of_cons; auto).
        apply lookup_delete_eq.
      * rewrite (decide_False (P := arn ∈ k :: arns)).
        -- by apply lookup_delete_ne.
        -- rewrite elem_of_cons. by intros [?|?].
Qed.

Lemma tickSubmit_run (TaskStopped : TaskStatus) (evs : list TaskStateChange) (w : World) :
  tickerPending w = evs →
  ∃ w', run TaskStopped w (replicate (length evs) TickSubmit) = Some w' ∧
        tickerPending w' = [] ∧
        effects w' = effects w ∧
        tasksToContainerStates (handler w') =
          foldl (λ m k, delete k m) (tasksToContainerStates (handler w)) (TaskARN <$> evs) ∧
        tasksToManagedAgentStates (handler w') =
          foldl (λ m k, delete k m) (tasksToManagedAgentStates (handler w)) (TaskARN <$> evs).
Proof.
  revert w. induction evs as [|ev evs IH]; intros w Hp.
  - exists w. by repeat split.
  - set (w0 := set_tickerPending evs w).
    set (w1 := (AddStateChangeEvent (taskEventOf ev) (client (handler w)) w0).2).
    destruct (AddStateChangeEvent_frame (taskEventOf ev) (client (handler w)) w0)
      as (_ & _ & Htp & Hes & _).
    destruct (AddStateChangeEvent_flush ev (client (handler w)) w0) as (Hc & Hm & _).
    destruct (IH w1) as (w' & Hrun & Hp' & Hes' & Hc' & Hm').
    { unfold w1. by rewrite Htp. }
    unfold w1 in *. clear w1.
    exists w'. split.
    + cbn [length replicate run]. unfold step. rewrite Hp. exact Hrun.
    + split; [done|]. split; [by rewrite Hes', Hes|].
      rewrite Hc', Hm', Hc, Hm. done.
Qed.

(** X10: one tick of the drain ticker, followed by the hand-in of every
    event it produced.  The run is possible from any state with no hand-in
    pending, makes no remote call, and afterwards the buffers of every task
    that is known to the engine and not yet stopped are empty, while the
    buffers of every other task are as they were. *)
Theorem ticker_round_flushes_eligible_buffers
    (TaskStopped : TaskStatus) (state : TaskEngineState) (w : World) :
  tickerPending w = [] →
  ∃ w', run TaskStopped w
          (tickerRound state (length (taskStateChangesToSend TaskStopped state w).1))
        = Some w' ∧
    tickerPending w' = [] ∧
    effects w' = effects w ∧
    ∀ arn,
      match eligible TaskStopped state arn with
      | Some _ =>
          tasksToContainerStates (handler w') !! arn = None ∧
          tasksToManagedAgentStates (handler w') !! arn = None
      | None =>
          tasksToContainerStates (handler w') !! arn =
            tasksToContainerStates (handler w) !! arn ∧
          tasksToManagedAgentStates (handler w') !! arn =
            tasksToManagedAgentStates (handler w) !! arn
      end.
Proof.
  intros Hp.
  pose proof (taskStateChangesToSend_frame TaskStopped state w)
    as (Hh & _ & _ & _ & _ & Hes & _).
  pose proof (taskStateChangesToSend_arns TaskStopped state w) as Harns.
  destruct (taskStateChangesToSend TaskStopped state w) as [evs w1] eqn:Hts.
  cbn [fst snd] in *.
  destruct (tickSubmit_run TaskStopped evs (set_tickerPending evs w1) eq_refl)
    as (w' & Hrun & Hp' & Hes' & Hc & Hm).
  exists w'. split.
  - unfold tickerRound. cbn [run]. unfold step. rewrite Hp, Hts. exact Hrun.
  - split; [done|]. split; [by rewrite Hes'|].
    intros arn. rewrite Hc, Hm, !foldl_delete_lookup. cbn. rewrite Hh.
    specialize (Harns arn).
    destruct (eligible TaskStopped state arn) as [ev|] eqn:Hel.
    + destruct (decide (arn ∈ TaskARN <$> evs)) as [Hin|Hin]; [done|].
      assert (Hnb : ¬ (is_Some (tasksToContainerStates (handler w) !! arn) ∨
                       is_Some (tasksToManagedAgentStates (handler w) !! arn))).
      { intros Hb. apply Hin, Harns. split; [done | by eexists]. }
      split.
      * destruct (tasksToContainerStates (handler w) !! arn) eqn:E; [|done].
        exfalso. apply Hnb. left. by eexists.
      * destruct (tasksToManagedAgentStates (handler w) !! arn) eqn:E; [|done].
        exfalso. apply Hnb. right. by eexists.
    + destruct (decide (arn ∈ TaskARN <$> evs)) as [Hin|Hin]; [|done].
      apply Harns in Hin as [_ [? ?]]. done.
Qed.


(** ** The response helpers *)

Lemma append_last_inj (s s' : string) (c : Ascii.ascii) :
  s +:+ String c "" = s' +:+ String c "" → s = s'.
Proof.
  revert s'. induction s as [|a s IH]; intros [|a' s'] H; cbn in H.
  - done.
  - injection H as _ H. by destruct s'.
  - injection H as _ H. by destruct s.
  - injection H as -> H. f_equal. by apply IH.
Qed.

Lemma append_colon_inj (n n' s s' : string) :
  utils.hasColon n = false → utils.hasColon n' = false →
  n +:+ String utils.colon s = n' +:+ String utils.colon s' → n = n' ∧ s = s'.
Proof.
  revert n'. induction n as [|a n IH]; intros [|a' n'] Hn Hn' H; cbn in *.
  - by injection H as ->.
  - injection H as <- _. by rewrite Ascii.eqb_refl in Hn'.
  - injection H as -> _. by rewrite Ascii.eqb_refl in Hn.
  - apply orb_false_elim in Hn as [_ Hn]. apply orb_false_elim in Hn' as [_ Hn'].
    injection H as -> H. destruct (IH n' Hn Hn' H) as [-> ->]. done.
Qed.

Lemma append_brace_not_colon (n n' s : string) :
  utils.hasColon n = false →
  n +:+ "}" ≠ n' +:+ String utils.colon s.
Proof.
  revert n'. induction n as [|a n IH]; intros [|a' n'] Hn H; cbn in *.
  - done.
  - injection H as _ H. by destruct n'.
  - injection H as -> _. by rewrite Ascii.eqb_refl in Hn.
  - apply orb_false_elim in Hn as [_ Hn]. injection H as _ H. by eapply IH.
Qed.

Lemma eqb_empty (s : string) : String.eqb s "" = false → ∃ c r, s = String c r.
Proof. destruct s; [done | eauto]. Qed.

(** X11: ConstructMuxVar is injective on names without a colon: two mux
    variables are equal only when their names and their patterns are. *)
Theorem ConstructMuxVar_injective (name name' pattern pattern' : string) :
  utils.hasColon name = false →
  utils.hasColon name' = false →
  utils.ConstructMuxVar name pattern = utils.ConstructMuxVar name' pattern' →
  name = name' ∧ pattern = pattern'.
Proof.
  intros Hn Hn'. unfold utils.ConstructMuxVar.
  destruct (String.eqb pattern "") eqn:Hp, (String.eqb pattern' "") eqn:Hp'.
  - apply String.eqb_eq in Hp as ->. apply String.eqb_eq in Hp' as ->.
    cbn. intros [= H]. split; [|done]. by eapply append_last_inj.
  - apply eqb_empty in Hp' as (c & r & ->). cbn. intros [= H].
    by apply append_brace_not_colon in H.
  - apply eqb_empty in Hp as (c & r & ->). cbn. intros [= H].
    symmetry in H. by apply append_brace_not_colon in H.
  - cbn. intros [= H]. apply append_colon_inj in H as [-> H]; [|done..].
    split; [done|]. by eapply append_last_inj.
Qed.

Ltac in_log :=
  solve [ repeat first [ by apply list_elem_of_here | apply list_elem_of_further ] ].

Ltac in_log_inv H :=
  repeat (apply elem_of_cons in H as [H|H]; [discriminate H|]);
  by apply elem_of_nil in H.

(** X12: WriteJSONResponse writes exactly one response: the Content-Type
    header application/json, then the status code, then the body.  The body
    is the marshalled JSON with the given status, or the empty object with
    status 500 when marshalling failed, in which case the marshalling error
    is logged too.  The status line is logged exactly for codes 400 to 599,
    with the body or the empty marker, and the write failure is logged
    exactly when the writer's Write fails. *)
Theorem WriteJSONResponse_writes_one_response (w : utils.ResponseWriter)
    (httpStatusCode : Z) (marshalled : string + string) (requestType : string) :
  let '(w', log) := utils.WriteJSONResponse w httpStatusCode marshalled requestType in
  utils.writeError w' = utils.writeError w ∧
  match marshalled with
  | inl bytes =>
      utils.calls w' = utils.calls w ++
        [utils.HeaderSet "Content-Type" "application/json";
         utils.WriteHeader httpStatusCode; utils.Write bytes] ∧
      ((400 ≤ httpStatusCode ≤ 599)%Z ↔
       utils.StatusLine httpStatusCode requestType "JSON"
         (if String.eqb bytes "" then "<empty>" else bytes) ∈ log)
  | inr e =>
      utils.calls w' = utils.calls w ++
        [utils.HeaderSet "Content-Type" "application/json";
         utils.WriteHeader 500; utils.Write "{}"] ∧
      utils.StatusLine 500 "agent metadata" "JSON" "{}" ∈ log ∧
      utils.ErrorMarshaling e ∈ log
  end ∧
  (is_Some (utils.writeError w) ↔ ∃ rt, utils.UnableToWrite rt ∈ log).
Proof.
  destruct w as [cs we]. destruct marshalled as [bytes|e]; cbn.
  - rewrite <- !app_assoc. cbn. split; [done|]. split; [split; [done|]|].
    + destruct (Z.leb_spec 400 httpStatusCode), (Z.leb_spec httpStatusCode 599); cbn.
      all: destruct we; cbn; split; try lia.
      all: try (intros Hin; in_log_inv Hin).
      all: intros _; in_log.
    + destruct we as [msg|]; cbn; split.
      * intros _. exists requestType. in_log.
      * by eexists.
      * by intros [? ?].
      * intros [rt Hin].
        destruct ((400 <=? httpStatusCode)%Z && (httpStatusCode <=? 599)%Z);
          in_log_inv Hin.
  - rewrite <- !app_assoc. cbn. split; [done|]. split; [split; [done|]|].
    + destruct we; cbn; split; in_log.
    + destruct we as [msg|]; cbn; split.
      * intros _. eexists. in_log.
      * by eexists.
      * by intros [? ?].
      * intros [rt Hin]. in_log_inv Hin.
Qed.


(** ** The properties at concrete inputs *)

Lemma batched_changes_reach_the_next_task_change_witness :
  ∃ w1 w2,
    run 5%Z (NewTaskHandler 0 0%Z) (map (λ change, Submit change 0) scenarioChanges)
      = Some w1 ∧
    step 5%Z w1 (Submit (taskEventOf (sampleTaskChange "T1" 4%Z)) 0) = Some w2 ∧
    ∃ l e, tasksToEvents (handler w2) !! "T1" = Some l ∧
           last (events (heap w2 l)) = Some (TaskChange e) ∧
           Containers e = [mkContainerStateChange "T1" "c1" 4%Z] ∧
           ManagedAgents e = [mkManagedAgentStateChange "T1" "a1" 4%Z].
Proof.
  destruct (batched_changes_reach_the_next_task_change 5%Z scenarioChanges
              (sampleTaskChange "T1" 4%Z) 0 (NewTaskHandler 0 0%Z))
    as (w1 & w2 & Hrun & Hstep & _ & _ & _ & _ & _ & _ & _ & l & e & Hl & Hlast & Hc & Hm).
  - repeat constructor.
  - exists w1, w2. split; [exact Hrun|]. split; [exact Hstep|].
    exists l, e. split; [exact Hl|]. split; [exact Hlast|].
    rewrite Hc, Hm. split; vm_compute; reflexivity.
Defined.

Lemma removeTaskEvents_then_new_list_witness :
  let '(l', w2) :=
    getTaskEventsUnsafe (TaskChange (sampleTaskChange "T" 4%Z))
      (removeTaskEvents "T" worldOneEvent).2 in
  l' ≠ 0 ∧ heap w2 0 = heap worldOneEvent 0 ∧ events (heap w2 l') = [].
Proof.
  assert (H1 : tasksToEvents (handler worldOneEvent)
                 !! taskArn (TaskChange (sampleTaskChange "T" 4%Z)) = Some 0)
    by (vm_compute; reflexivity).
  assert (H2 : 0 < next worldOneEvent) by (vm_compute; repeat constructor).
  pose proof (removeTaskEvents_then_new_list
                (TaskChange (sampleTaskChange "T" 4%Z)) worldOneEvent 0 H1 H2) as H.
  cbv zeta in H.
  change (taskArn (TaskChange (sampleTaskChange "T" 4%Z))) with "T" in H.
  destruct (getTaskEventsUnsafe (TaskChange (sampleTaskChange "T" 4%Z))
              (removeTaskEvents "T" worldOneEvent).2) as [l' w2].
  destruct H as (_ & _ & _ & _ & _ & _ & Hne & Hold & Hev & _).
  split; [exact Hne|]. split; [exact Hold | exact Hev].
Defined.

Lemma event_lists_are_per_task_witness :
  tasksToEvents (handler raceWorld) !! "T" = Some 1 ∧
  1 < next raceWorld ∧
  Forall (λ e, taskArn e = "T") (events (heap raceWorld 1)).
Proof.
  assert (Hrun : run 5%Z (NewTaskHandler 0 0%Z) raceSetup = Some raceWorld)
    by (vm_compute; reflexivity).
  assert (Hl : tasksToEvents (handler raceWorld) !! "T" = Some 1)
    by (vm_compute; reflexivity).
  destruct (event_lists_are_per_task 5%Z 0 0%Z raceSetup raceWorld Hrun)
    as (Hev & _ & Hreg).
  split; [exact Hl|]. split; [exact (proj1 (Hreg "T" 1 Hl))|].
  apply Forall_forall. intros e He. exact (Hev "T" 1 e Hl He).
Defined.

Lemma drain_step_outcome_witness :
  let g := mkGoroutine 0 0 "T" AtSubmitFirstEvent in
  g_pc g = AtSubmitFirstEvent ∧
  submitSemaphore (handler drainedWorld) = S (submitSemaphore (handler acquiredWorld)) ∧
  ((goroutines drainedWorld !! 0 = Some (set_pc AtRemoveTaskEvents g) ∧
    events (heap drainedWorld 0) = [] ∧ sending (heap drainedWorld 0) = false) ∨
   (goroutines drainedWorld !! 0 = Some (set_pc AtWait g) ∧
    sending (heap drainedWorld 0) = sending (heap acquiredWorld 0))) ∧
  ∀ j, j ≠ 0 → goroutines drainedWorld !! j = goroutines acquiredWorld !! j.
Proof.
  intros g.
  apply (drain_step_outcome 5%Z acquiredWorld drainedWorld 0 envTaskAccepted g).
  - vm_compute. reflexivity.
  - vm_compute. reflexivity.
Defined.

Lemma other_errors_keep_the_event_witness :
  let '(r, w') := submitFirstEvent envTaskTransient 0 worldOneEvent in
  r = (false, Some connectionReset) ∧
  heap w' 0 = heap worldOneEvent 0 ∧
  ∃ api ty, effects w' = effects worldOneEvent ++
    [RemoteCall api ty (TaskChange (sampleTaskChange "T" 4%Z)) (Some connectionReset)].
Proof.
  apply (other_errors_keep_the_event envTaskTransient 0 worldOneEvent
           (TaskChange (sampleTaskChange "T" 4%Z)) [] connectionReset).
  - vm_compute. reflexivity.
  - reflexivity.
  - intros api. reflexivity.
  - reflexivity.
Defined.

Lemma ticker_round_flushes_eligible_buffers_witness :
  ∃ w', run 5%Z bufferedWorld
          (tickerRound sampleState
             (length (taskStateChangesToSend 5%Z sampleState bufferedWorld).1))
        = Some w' ∧
    tickerPending w' = [] ∧
    tasksToContainerStates (handler w') !! "T1" = None ∧
    tasksToManagedAgentStates (handler w') !! "T1" = None ∧
    tasksToContainerStates (handler w') !! "T2" =
      Some [mkContainerStateChange "T2" "c2" 5%Z] ∧
    tasksToManagedAgentStates (handler w') !! "T3" =
      Some [mkManagedAgentStateChange "T3" "a3" 4%Z].
Proof.
  assert (Hp : tickerPending bufferedWorld = []) by (vm_compute; reflexivity).
  destruct (ticker_round_flushes_eligible_buffers 5%Z sampleState bufferedWorld Hp)
    as (w' & Hrun & Hp' & _ & Hbuf).
  exists w'. split; [exact Hrun|]. split; [exact Hp'|].
  pose proof (Hbuf "T1") as H1. pose proof (Hbuf "T2") as H2. pose proof (Hbuf "T3") as H3.
  assert (E1 : eligible 5%Z sampleState "T1" =
               Some (syntheticEvent "T1" (mkTask "T1" 4%Z 100%Z 0%Z 0%Z)))
    by (vm_compute; reflexivity).
  assert (E2 : eligible 5%Z sampleState "T2" = None) by (vm_compute; reflexivity).
  assert (E3 : eligible 5%Z sampleState "T3" = None) by (vm_compute; reflexivity).
  rewrite E1 in H1. rewrite E2 in H2. rewrite E3 in H3.
  destruct H1 as [-> ->]. destruct H2 as [-> _]. destruct H3 as [_ ->].
  repeat split; vm_compute; reflexivity.
Defined.

Lemma ConstructMuxVar_injective_witness :
  utils.ConstructMuxVar "id" "[0-9]+" = "{id:[0-9]+}" ∧
  "id" = "id" ∧ "[0-9]+" = "[0-9]+".
Proof.
  split; [reflexivity|].
  apply (ConstructMuxVar_injective "id" "id" "[0-9]+" "[0-9]+"); reflexivity.
Defined.

Lemma invalid_parameter_task_paths_witness :
  let '(r, w') := submitFirstEvent envTaskInvalid 0 worldOneEvent in
  r = (false, Some invalidParameter) ∧
  events (heap w' 0) = [] ∧
  ∀ m e, SentMarker m e ∈ effects w' → SentMarker m e ∈ effects worldOneEvent.
Proof.
  apply (invalid_parameter_task_paths envTaskInvalid 0 worldOneEvent
           (TaskChange (sampleTaskChange "T" 4%Z)) [] invalidParameter).
  - vm_compute. reflexivity.
  - reflexivity.
  - reflexivity.
  - reflexivity.
  - reflexivity.
Defined.

Lemma run_oneWorkerPerList_witness :
  sending (heap raceWorld 0) = true ∧
  workers 0 raceWorld ≤ 1 ∧ (workers 0 raceWorld = 1 ↔ sending (heap raceWorld 0) = true).
Proof.
  split; [vm_compute; reflexivity|].
  apply (run_oneWorkerPerList 5%Z 0 0%Z raceSetup raceWorld 0).
  vm_compute. reflexivity.
Defined.

Lemma run_buffers_wf_witness :
  tasksToContainerStates (handler bufferedWorld) !! "T1" =
    Some [mkContainerStateChange "T1" "c1" 4%Z] ∧
  buffers_wf (handler bufferedWorld).
Proof.
  split; [vm_compute; reflexivity|].
  apply (run_buffers_wf 5%Z 0 0%Z
           [ Submit (containerEventOf (mkContainerStateChange "T1" "c1" 4%Z)) 0;
             Submit (managedAgentEventOf (mkManagedAgentStateChange "T1" "a1" 4%Z)) 0;
             Submit (containerEventOf (mkContainerStateChange "T2" "c2" 5%Z)) 0;
             Submit (managedAgentEventOf (mkManagedAgentStateChange "T3" "a3" 4%Z)) 0 ]
           bufferedWorld).
  vm_compute. reflexivity.
Defined.

Lemma synthesize_permutation_witness :
  synthesize 5%Z sampleState ["T1"; "T2"] ["T3"; "T1"] =
  synthesize 5%Z sampleState ["T2"; "T1"] ["T1"; "T3"].
Proof.
  apply (synthesize_permutation 5%Z sampleState); apply perm_swap.
Defined.
